(** * cluster-csi-snapshot-controller-operator: pkg/operator/starter.go

    A shallow embedding of the operator's start-up routine [RunOperator],
    of the two topology predicates handed to the static resource
    controller, and of the manifest hook [replacePlaceholdersHook],
    together with the properties the specification states about them. *)

From Stdlib Require Import ZArith Lia Bool List.
From Stdlib Require Import Strings.Byte Strings.String DecimalString.
From stdpp Require Import base list strings gmap.
Import ListNotations.

Local Open Scope Z_scope.
Local Open Scope string_scope.
Local Open Scope list_scope.

#[export] Instance byte_eq_dec : EqDecision byte := Byte.byte_eq_dec.

(** Go's [error] interface: [nil] is [None], a non-nil error carries its
    message. *)
Definition error : Type := string.

(** * A small state monad for code that talks to its environment *)

(** [klog] calls made by the code, in order. *)
Inductive LogEntry : Type :=
| Errorf (msg : string)
| V4Infof (msg : string).

(** What one call of [staticcontrollercommon.NewIsSingleNodePlatformFn(...)()]
    returns: [(isSNO, precheckSucceeded, err)]. *)
Record PrecheckResult : Type := mkPrecheck {
  isSNO : bool;
  precheckSucceeded : bool;
  err : option error
}.

(** The part of the world the topology predicates touch.  The
    Infrastructure informer's cache is filled by another goroutine, so what
    a call of the precheck sees depends on when it is made: [precheckAt w n]
    is the outcome of the [n]-th call, [calls w] counts the calls made so
    far, [klog w] is the log written so far (latest entry first). *)
Record World : Type := mkWorld {
  precheckAt : nat -> PrecheckResult;
  calls : nat;
  klog : list LogEntry
}.

Definition M (A : Type) : Type := World -> A * World.

#[export] Instance M_ret : MRet M := fun A (a : A) w => (a, w).

#[export] Instance M_bind : MBind M :=
  fun A B (k : A -> M B) (m : M A) w => let (a, w') := m w in k a w'.

Definition klog_Errorf (msg : string) : M unit :=
  fun w => (tt, mkWorld (precheckAt w) (calls w) (Errorf msg :: klog w)).

Definition klog_V4_Infof (msg : string) : M unit :=
  fun w => (tt, mkWorld (precheckAt w) (calls w) (V4Infof msg :: klog w)).

(** One call of [NewIsSingleNodePlatformFn(informer)()]: it reads the
    informer as it is now. *)
Definition NewIsSingleNodePlatformFn : M PrecheckResult :=
  fun w => (precheckAt w (calls w),
            mkWorld (precheckAt w) (S (calls w)) (klog w)).

(** The precheck outcome the next call will see. *)
Definition currentPrecheck (w : World) : PrecheckResult :=
  precheckAt w (calls w).

(** * The conditional resources' predicates (starter.go, lines 93-116) *)

Module ConditionalResources.

(** First closure given to [WithConditionalResources]: the pod disruption
    budgets are wanted on a multi-node cluster. *)
Definition multiNodePredicate : M bool :=
  r ← NewIsSingleNodePlatformFn;
  match err r with
  | Some e =>
      klog_Errorf ("NewIsSingleNodePlatformFn failed: " ++ e) ;;
      mret false
  | None =>
      if negb (precheckSucceeded r) then
        klog_V4_Infof "NewIsSingleNodePlatformFn precheck did not succeed, skipping" ;;
        mret false
      else mret (negb (isSNO r))
  end.

(** Second closure: the budgets are removed on a single-node cluster. *)
Definition singleNodePredicate : M bool :=
  r ← NewIsSingleNodePlatformFn;
  match err r with
  | Some e =>
      klog_Errorf ("NewIsSingleNodePlatformFn failed: " ++ e) ;;
      mret false
  | None =>
      if negb (precheckSucceeded r) then
        klog_V4_Infof "NewIsSingleNodePlatformFn precheck did not succeed, skipping" ;;
        mret false
      else mret (isSNO r)
  end.

(** One pass of the static resource controller over the conditional
    resources calls both closures, one after the other. *)
Definition evaluatePredicates : M (bool * bool) :=
  multi ← multiNodePredicate;
  single ← singleNodePredicate;
  mret (multi, single).

(** The precheck could not conclude: it failed or did not succeed. *)
Definition indeterminate (r : PrecheckResult) : Prop :=
  err r <> None \/ precheckSucceeded r = false.

End ConditionalResources.

(** * The operator API types the hook reads *)

Module operatorv1.

(** [operatorv1.LogLevel] is a string type; these are its constants. *)
Definition LogLevel : Type := string.
Definition Normal : LogLevel := "Normal".
Definition Debug : LogLevel := "Debug".
Definition Trace : LogLevel := "Trace".
Definition TraceAll : LogLevel := "TraceAll".
Definition GroupName : string := "operator.openshift.io".
Definition ConditionTrue : string := "True".

End operatorv1.

(** [operatorv1.OperatorSpec]; the two raw extensions are kept as their
    bytes. *)
Record OperatorSpec : Type := mkOperatorSpec {
  ManagementState : string;
  LogLevel : operatorv1.LogLevel;
  OperatorLogLevel : operatorv1.LogLevel;
  UnsupportedConfigOverrides : list byte;
  ObservedConfig : list byte
}.

Module loglevel.

(** Modelled from the spec: [loglevel.LogLevelToVerbosity] and the order of
    the [LogLevel] constants (library-go and openshift/api, vendored, not
    under src/).  The spec asks for a deterministic, monotonic mapping of
    the log-level enum to a verbosity ordinal in a fixed finite range (0 to
    10): the klog verbosities 2, 4, 6 and 8 for Normal, Debug, Trace and
    TraceAll, and the Normal verbosity for any other string. *)
Definition LogLevelToVerbosity (logLevel : operatorv1.LogLevel) : Z :=
  if String.eqb logLevel operatorv1.Normal then 2
  else if String.eqb logLevel operatorv1.Debug then 4
  else if String.eqb logLevel operatorv1.Trace then 6
  else if String.eqb logLevel operatorv1.TraceAll then 8
  else 2.

(** Modelled from the spec: the position of a valid log level in the enum,
    from the least to the most verbose; [None] for a string that is not one
    of the four constants. *)
Definition ordinal (logLevel : operatorv1.LogLevel) : option nat :=
  if String.eqb logLevel operatorv1.Normal then Some 0%nat
  else if String.eqb logLevel operatorv1.Debug then Some 1%nat
  else if String.eqb logLevel operatorv1.Trace then Some 2%nat
  else if String.eqb logLevel operatorv1.TraceAll then Some 3%nat
  else None.

End loglevel.

(** * Go's [strings.Replacer] and [fmt.Sprint] *)

(** [[]byte(s)] and [string(b)]. *)
Definition bytes (s : string) : list byte := list_byte_of_string s.
Definition string_ (b : list byte) : string := string_of_list_byte b.

(** [fmt.Sprint] of an [int]: its decimal rendering, with a minus sign when
    negative. *)
Definition fmt_Sprint (n : Z) : string :=
  DecimalString.NilZero.string_of_int (Z.to_int n).

Module strings.

(** [strings.HasPrefix]. *)
Fixpoint HasPrefix (s prefix : list byte) : bool :=
  match prefix, s with
  | [], _ => true
  | _ :: _, [] => false
  | p :: prefix', c :: s' => Byte.eqb c p && HasPrefix s' prefix'
  end.

(** A replacer is its list of (old, new) pairs, in argument order. *)
Definition Replacer : Type := list (list byte * list byte).

(** None of the old strings is empty. *)
Definition keysNotEmpty (r : Replacer) : Prop :=
  Forall (fun kv : list byte * list byte => kv.1 <> []) r.

(** [strings.NewReplacer(oldnew...)]; the flat argument list comes here
    already grouped in pairs. *)
Definition NewReplacer (oldnew : list (string * string)) : Replacer :=
  map (fun '(old, new) => (bytes old, bytes new)) oldnew.

(** The generic replacer's lookup at one position: the old strings are
    compared in argument order, and the first that is a prefix of what is
    left of the input wins.  [ignoreRoot] leaves the empty old string out,
    as the replacer does right after an empty match.  The result is the
    new string and the length of the old one. *)
Fixpoint lookup_ (r : Replacer) (s : list byte) (ignoreRoot : bool)
  : option (list byte * nat) :=
  match r with
  | [] => None
  | (old, new) :: r' =>
      if HasPrefix s old && negb (ignoreRoot && (length old =? 0)%nat)
      then Some (new, length old)
      else lookup_ r' s ignoreRoot
  end.

(** The replacer's scan, left to right and without overlapping matches: at
    a match the new string is written and the scan goes on after the old
    one, otherwise one byte is copied.  Every round consumes a byte or
    follows an empty match that the next round ignores, so
    [2 * length s + 2] rounds are enough; a scan that ran out of rounds
    would copy the rest. *)
Fixpoint replaceLoop (r : Replacer) (fuel : nat) (s : list byte)
    (prevMatchEmpty : bool) : list byte :=
  match fuel with
  | O => s
  | S fuel' =>
      match lookup_ r s prevMatchEmpty with
      | Some (val, keylen) =>
          val ++ replaceLoop r fuel' (drop keylen s) (keylen =? 0)%nat
      | None =>
          match s with
          | [] => []
          | c :: s' => c :: replaceLoop r fuel' s' false
          end
      end
  end.

Definition replaceBytes (r : Replacer) (s : list byte) : list byte :=
  replaceLoop r (2 * length s + 2) s false.

(** The [Replace] method of a replacer. *)
Definition Replace (r : Replacer) (s : string) : string :=
  string_ (replaceBytes r (bytes s)).

End strings.

(** * The manifest hook (starter.go, lines 244-254) *)

(** [dc.ManifestHookFunc]: the manifest and the error it returns. *)
Definition ManifestHookFunc : Type :=
  OperatorSpec -> list byte -> list byte * option error.

(** The hook dereferences [spec] without a nil check; the deployment
    controller hands it the spec it has just read from the operator
    client. *)
Definition replacePlaceholdersHook (imageName : string) : ManifestHookFunc :=
  fun spec manifest =>
    let pairs := [("${OPERAND_IMAGE}", imageName)] in
    let logLevel := loglevel.LogLevelToVerbosity (LogLevel spec) in
    let pairs := pairs ++ [("${LOG_LEVEL}", fmt_Sprint logLevel)] in
    let replaced := strings.Replace (strings.NewReplacer pairs) (string_ manifest) in
    (bytes replaced, None).

(** The pairs the hook builds its replacer from. *)
Definition hookPairs (imageName : string) (spec : OperatorSpec)
  : list (string * string) :=
  [("${OPERAND_IMAGE}", imageName);
   ("${LOG_LEVEL}", fmt_Sprint (loglevel.LogLevelToVerbosity (LogLevel spec)))].

(** The manifest the hook returns. *)
Definition substitute (manifest : list byte) (spec : OperatorSpec)
    (imageName : string) : list byte :=
  (replacePlaceholdersHook imageName spec manifest).1.

(** * [RunOperator] (starter.go, lines 48-242) *)

Definition targetName : string := "csi-snapshot-controller".
Definition targetNamespace : string := "openshift-cluster-storage-operator".
Definition operatorNamespace : string := "openshift-cluster-storage-operator".

Definition operatorVersionEnvName : string := "OPERATOR_IMAGE_VERSION".
Definition operandVersionEnvName : string := "OPERAND_IMAGE_VERSION".
Definition operandImageEnvName : string := "OPERAND_IMAGE".
Definition webhookImageEnvName : string := "WEBHOOK_IMAGE".

(** What [RunOperator] gets from outside: the [err] result of the four
    client constructors, the embedded assets, the process environment, and
    the context's [Done] channel, closed or not at each tick of the
    clock. *)
Record Environment : Type := mkEnvironment {
  kubeclient_NewForConfig : option error;
  configclient_NewForConfig : option error;
  apiextclient_NewForConfig : option error;
  goc_NewClusterScopedOperatorClientWithConfigName : option error;
  assets_ReadFile : string -> list byte * option error;
  os_Getenv : string -> string;
  ctx_Done : nat -> bool
}.

(** The controllers [RunOperator] builds, with the arguments that come from
    this file. *)
Inductive Controller : Type :=
| StaticResourceController (name : string) (files conditionalFiles : list string)
    (shouldCreateFn shouldDeleteFn : M bool)
| DeploymentController (name : string) (manifest : list byte)
    (hooks : list ManifestHookFunc)
| VersionController (name availableCondition progressingCondition : string)
    (operatorVersion operandVersion : string)
| ClusterOperatorStatusController (name : string)
    (relatedObjects : list (string * string * string))
| ConditionController (name : string) (conditions : list (string * string))
| ClusterOperatorLoggingController
| OperatorManagementStateController (name : string).

(** What [RunOperator] does to the process, in order. *)
Inductive Effect : Type :=
| SetOperatorNotRemovable
| KlogInfo (msg : string)
| InformerStart (factory : string)
| GoRun (controller : Controller) (workers : nat).

Definition startsSomething (e : Effect) : bool :=
  match e with
  | InformerStart _ | GoRun _ _ => true
  | SetOperatorNotRemovable | KlogInfo _ => false
  end.

(** A call that has returned its [error], or one still blocked when the
    observation ends. *)
Inductive Outcome : Type :=
| Returned (err : option error)
| Blocked.

(** [<-ctx.Done()] watched for [ticks] ticks from tick [now]: the tick at
    which the receive goes through, if it does. *)
Fixpoint awaitDone (done : nat -> bool) (ticks now : nat) : option nat :=
  match ticks with
  | O => None
  | S ticks' => if done now then Some now else awaitDone done ticks' (S now)
  end.

(** [RunOperator] watched for [ticks] ticks: how the call stands at the
    end, and what it has done to the process.  The step
    [if err != nil { return err }] after each fallible call is the [Some err]
    branch of the match on its result. *)
Definition RunOperator (env : Environment) (ticks : nat)
  : Outcome * list Effect :=
  match kubeclient_NewForConfig env with
  | Some err => (Returned (Some err), [])
  | None =>
  match configclient_NewForConfig env with
  | Some err => (Returned (Some err), [])
  | None =>
  match apiextclient_NewForConfig env with
  | Some err => (Returned (Some err), [])
  | None =>
  match goc_NewClusterScopedOperatorClientWithConfigName env with
  | Some err => (Returned (Some err), [])
  | None =>
  let staticResourcesController :=
    StaticResourceController "CSISnapshotStaticResourceController"
      ["volumesnapshots.yaml"; "volumesnapshotcontents.yaml";
       "volumesnapshotclasses.yaml"; "webhook_config.yaml"]
      ["csi_controller_deployment_pdb.yaml"; "webhook_deployment_pdb.yaml"]
      ConditionalResources.multiNodePredicate
      ConditionalResources.singleNodePredicate in
  let (controllerDeploymentManifest, err) :=
    assets_ReadFile env "csi_controller_deployment.yaml" in
  match err with
  | Some err => (Returned (Some err), [])
  | None =>
  let controllerDeploymentController :=
    DeploymentController "CSISnapshotController" controllerDeploymentManifest
      [replacePlaceholdersHook (os_Getenv env operandImageEnvName)] in
  let (webhookDeploymentManifest, err) :=
    assets_ReadFile env "webhook_deployment.yaml" in
  match err with
  | Some err => (Returned (Some err), [])
  | None =>
  let webhookDeploymentController :=
    DeploymentController "CSISnapshotWebhookController" webhookDeploymentManifest
      [replacePlaceholdersHook (os_Getenv env webhookImageEnvName)] in
  let versionController :=
    VersionController "VersionController"
      "CSISnapshotControllerAvailable" "CSISnapshotControllerProgressing"
      (os_Getenv env operatorVersionEnvName)
      (os_Getenv env operandVersionEnvName) in
  let clusterOperatorStatus :=
    ClusterOperatorStatusController targetName
      [("", "namespaces", targetNamespace);
       ("", "namespaces", operatorNamespace);
       (operatorv1.GroupName, "csisnapshotcontrollers", "cluster")] in
  let cndController :=
    ConditionController "ConditionController"
      [("CSISnapshotControllerUpgradeable", operatorv1.ConditionTrue)] in
  let logLevelController := ClusterOperatorLoggingController in
  let managementStateController :=
    OperatorManagementStateController targetName in
  let effects :=
    [SetOperatorNotRemovable; KlogInfo "Starting the Informers."]
    ++ map InformerStart
         ["dynamicInformers"; "configInformers"; "kubeInformersForNamespaces"]
    ++ [KlogInfo "Starting the controllers"]
    ++ map (fun controller => GoRun controller 1)
         [clusterOperatorStatus; logLevelController; managementStateController;
          staticResourcesController; controllerDeploymentController;
          webhookDeploymentController; versionController; cndController] in
  match awaitDone (ctx_Done env) ticks 0 with
  | Some _ => (Returned (Some "stopped"), effects)
  | None => (Blocked, effects)
  end
  end end end end end end.

(** Start-up went through: the four clients were built and both deployment
    manifests were read. *)
Definition startupSucceeds (env : Environment) : Prop :=
  kubeclient_NewForConfig env = None /\
  configclient_NewForConfig env = None /\
  apiextclient_NewForConfig env = None /\
  goc_NewClusterScopedOperatorClientWithConfigName env = None /\
  (assets_ReadFile env "csi_controller_deployment.yaml").2 = None /\
  (assets_ReadFile env "webhook_deployment.yaml").2 = None.

(** A client could not be built or a deployment manifest could not be
    read. *)
Definition startupFails (env : Environment) : Prop :=
  kubeclient_NewForConfig env <> None \/
  configclient_NewForConfig env <> None \/
  apiextclient_NewForConfig env <> None \/
  goc_NewClusterScopedOperatorClientWithConfigName env <> None \/
  (assets_ReadFile env "csi_controller_deployment.yaml").2 <> None \/
  (assets_ReadFile env "webhook_deployment.yaml").2 <> None.

(** The errors of the start-up steps that failed, in the order of the
    steps. *)
Definition startupErrors (env : Environment) : list error :=
  omap id
    [kubeclient_NewForConfig env; configclient_NewForConfig env;
     apiextclient_NewForConfig env;
     goc_NewClusterScopedOperatorClientWithConfigName env;
     (assets_ReadFile env "csi_controller_deployment.yaml").2;
     (assets_ReadFile env "webhook_deployment.yaml").2].

(** * The version record kept by the version controller *)

Module VersionTracker.

(** Modelled from the spec: the versions the sub-components report running.
    [NewVersionController] and its sync loop live in this package but not
    under src/; section 4.4 names the operator pod image, the operand
    deployment and the webhook deployment. *)
Record SubComponents : Type := mkSubComponents {
  operatorPodImage : string;
  operandDeployment : string;
  webhookDeployment : string
}.

(** Modelled from the spec: the version record of section 3, missing from
    src/ with the version controller: the reported version of each
    component, and the target version. *)
Record VersionRecord : Type := mkVersionRecord {
  reported : gmap string string;
  target : string
}.

(** Modelled from the spec: every sub-component confirms the target version
    (section 4.4; the check is the version controller's, not under src/). *)
Definition allConfirm (target : string) (obs : SubComponents) : bool :=
  String.eqb (operatorPodImage obs) target
  && String.eqb (operandDeployment obs) target
  && String.eqb (webhookDeployment obs) target.

(** Modelled from the spec: one aggregation pass of the version controller
    (its sync is not under src/).  Section 4.4: a component's reported
    version advances to the target only when every sub-component confirms
    the target, and a recorded version is never rewritten otherwise. *)
Definition aggregationPass (rec : VersionRecord) (obs : SubComponents)
  : VersionRecord :=
  if allConfirm (target rec) obs
  then mkVersionRecord ((fun _ => target rec) <$> reported rec) (target rec)
  else rec.

(** Modelled from the spec: the passes made over time, one per observation
    of the sub-components. *)
Definition aggregate (rec : VersionRecord) (passes : list SubComponents)
  : VersionRecord :=
  foldl aggregationPass rec passes.

End VersionTracker.

(** * What "every occurrence replaced" means *)

(** The two placeholders the hook knows. *)
Inductive Placeholder : Type := OPERAND_IMAGE | LOG_LEVEL.

Definition token (p : Placeholder) : string :=
  match p with
  | OPERAND_IMAGE => "${OPERAND_IMAGE}"
  | LOG_LEVEL => "${LOG_LEVEL}"
  end.

(** The value the hook puts in a placeholder's place. *)
Definition tokenValue (imageName : string) (spec : OperatorSpec)
    (p : Placeholder) : string :=
  match p with
  | OPERAND_IMAGE => imageName
  | LOG_LEVEL => fmt_Sprint (loglevel.LogLevelToVerbosity (LogLevel spec))
  end.

(** A known token starts at the head of [s]. *)
Definition tokenAt (s : list byte) : bool :=
  strings.HasPrefix s (bytes (token OPERAND_IMAGE))
  || strings.HasPrefix s (bytes (token LOG_LEVEL)).

(** A known token occurs somewhere in [l]. *)
Fixpoint hasToken (l : list byte) : bool :=
  match l with
  | [] => false
  | _ :: l' => tokenAt l || hasToken l'
  end.

(** A manifest cut at the occurrences of the known tokens: stretches of
    other bytes, each followed by a token, and the bytes after the last
    token. *)
Record Template : Type := mkTemplate {
  chunks : list (list byte * Placeholder);
  rest : list byte
}.

(** The template with each token position filled by [fill]. *)
Definition render (fill : Placeholder -> list byte) (t : Template) : list byte :=
  foldr (fun '(lit, p) out => lit ++ fill p ++ out) (rest t) (chunks t).

(** The manifest the template stands for: every position holds its token. *)
Definition manifestOf (t : Template) : list byte :=
  render (fun p => bytes (token p)) t.

(** The manifest with every occurrence replaced by its value. *)
Definition substituted (imageName : string) (spec : OperatorSpec)
    (t : Template) : list byte :=
  render (fun p => bytes (tokenValue imageName spec p)) t.

(** No stretch of other bytes holds an occurrence of a known token, so the
    token positions of the template are all the occurrences there are. *)
Definition exhaustive (t : Template) : Prop :=
  Forall (fun c => hasToken c.1 = false) (chunks t) /\ hasToken (rest t) = false.

(** An unknown token: [${NAME}] with a name free of [$] and [}] that is
    not one of the two known names. *)
Definition unknownToken (u : list byte) : Prop :=
  exists name : list byte,
    u = bytes "${" ++ name ++ bytes "}" /\
    ("$"%byte ∉ name) /\ ("}"%byte ∉ name) /\
    name <> bytes "OPERAND_IMAGE" /\ name <> bytes "LOG_LEVEL".

(** The bytes of the two known tokens. *)
Definition tokenBytes : list byte :=
  bytes (token OPERAND_IMAGE) ++ bytes (token LOG_LEVEL).

(** A value that cannot take part in a token: it is not empty, has no [$],
    and its first byte occurs in neither known token. *)
Definition plainValue (x : list byte) : Prop :=
  match x with
  | [] => False
  | c :: _ => ("$"%byte ∉ x) /\ (c ∉ tokenBytes)
  end.

Definition plainImageName (imageName : string) : Prop :=
  plainValue (bytes imageName).

(** * Reading what [RunOperator] has done *)

(** The informer factories started, in the order of the calls. *)
Definition informersStarted (effects : list Effect) : list string :=
  omap (fun e => match e with InformerStart f => Some f | _ => None end) effects.

(** The controllers launched with [go controller.Run(ctx, workers)], in the
    order of the launches, each with its number of workers. *)
Definition controllersLaunched (effects : list Effect) : list (Controller * nat) :=
  omap (fun e => match e with GoRun c n => Some (c, n) | _ => None end) effects.


(** The same environment with another [Done] channel. *)
Definition withDone (env : Environment) (done : nat -> bool) : Environment :=
  mkEnvironment (kubeclient_NewForConfig env) (configclient_NewForConfig env)
    (apiextclient_NewForConfig env)
    (goc_NewClusterScopedOperatorClientWithConfigName env)
    (assets_ReadFile env) (os_Getenv env) done.

(** Token [p] occurs somewhere in [l]. *)
Fixpoint hasPlaceholder (p : Placeholder) (l : list byte) : bool :=
  match l with
  | [] => false
  | _ :: l' => strings.HasPrefix l (bytes (token p)) || hasPlaceholder p l'
  end.

(** * Inputs used in the examples *)

Module Examples.

Definition multiNode : PrecheckResult := mkPrecheck false true None.
Definition singleNode : PrecheckResult := mkPrecheck true true None.
Definition notSynced : PrecheckResult := mkPrecheck false false None.
Definition failed : PrecheckResult :=
  mkPrecheck false true (Some "ControlPlaneTopology was not set, unable to determine topology mode").

(** The informer shows the same thing at every call. *)
Definition steady (r : PrecheckResult) : World := mkWorld (fun _ => r) 0 [].

(** The informer's cache is updated between the first call and the second:
    the cluster looks multi-node at the first and single-node from the
    second on. *)
Definition topologyFlips : World :=
  mkWorld (fun n => match n with O => multiNode | S _ => singleNode end) 0 [].

(** A process whose start-up goes through and whose context is cancelled
    at tick [cancelledAt]. *)
Definition healthy (cancelledAt : nat) : Environment :=
  mkEnvironment None None None None
    (fun name => (bytes "image: ${OPERAND_IMAGE}", None))
    (fun name => "quay.io/openshift/snapshot:v1")
    (fun now => Nat.leb cancelledAt now).

(** The same process when the webhook deployment manifest cannot be
    read. *)
Definition webhookAssetMissing : Environment :=
  mkEnvironment None None None None
    (fun name =>
       if String.eqb name "webhook_deployment.yaml"
       then ([], Some "open webhook_deployment.yaml: file does not exist")
       else (bytes "image: ${OPERAND_IMAGE}", None))
    (fun name => "quay.io/openshift/snapshot:v1")
    (fun now => false).

(** A version record already at its target, and sub-components of which
    one is observed on an older version. *)
Definition upToDate : VersionTracker.VersionRecord :=
  VersionTracker.mkVersionRecord
    {[ "csi-snapshot-controller" := "4.12.0"; "operator" := "4.12.0" ]} "4.12.0".

Definition webhookBehind : VersionTracker.SubComponents :=
  VersionTracker.mkSubComponents "4.12.0" "4.12.0" "4.11.3".

Definition allAtTarget : VersionTracker.SubComponents :=
  VersionTracker.mkSubComponents "4.12.0" "4.12.0" "4.12.0".

Definition upgrading : VersionTracker.VersionRecord :=
  VersionTracker.mkVersionRecord
    {[ "csi-snapshot-controller" := "4.11.3" ]} "4.12.0".

(** Operator specs: the usual one, and one that differs from it in
    everything but the log level. *)
Definition managed : OperatorSpec :=
  mkOperatorSpec "Managed" operatorv1.Normal operatorv1.Normal [] [].

Definition unmanagedTracing : OperatorSpec :=
  mkOperatorSpec "Unmanaged" operatorv1.Normal operatorv1.Trace
    (bytes "{}") (bytes "{}").

(** A deployment manifest with each token twice and a token the hook does
    not know, and the same manifest cut at the known tokens. *)
Definition deployment : list byte :=
  bytes "image: ${OPERAND_IMAGE} args: --v=${LOG_LEVEL} ${NODE} ${OPERAND_IMAGE} ${LOG_LEVEL}!".

Definition deploymentTemplate : Template :=
  mkTemplate
    [(bytes "image: ", OPERAND_IMAGE);
     (bytes " args: --v=", LOG_LEVEL);
     (bytes " ${NODE} ", OPERAND_IMAGE);
     (bytes " ", LOG_LEVEL)]
    (bytes "!").

(** A manifest in which a token shows up once the operand image token,
    replaced by an empty image name, is gone. *)
Definition nested : list byte := bytes "${LOG_${OPERAND_IMAGE}LEVEL}".

(** A process whose context is already cancelled when [RunOperator] is
    called, and whose image variables are set to different images. *)
Definition cancelledAtEntry : Environment :=
  mkEnvironment None None None None
    (fun name => (bytes "image: ${OPERAND_IMAGE}", None))
    (fun name =>
       if String.eqb name "WEBHOOK_IMAGE" then "quay.io/openshift/webhook:v1"
       else "quay.io/openshift/snapshot:v1")
    (fun now => true).

(** Manifests with only one of the two tokens. *)
Definition imageOnly : list byte := bytes "image: ${OPERAND_IMAGE} $ ${LOG_LEVEL".
Definition levelOnly : list byte := bytes "args: --v=${LOG_LEVEL} {OPERAND_IMAGE}".

End Examples.

(** * Properties of the topology predicates *)

Section ConditionalResourcesFacts.

Import ConditionalResources.

(** What each predicate returns, read off the precheck outcome it sees. *)
Lemma multiNodePredicate_value (w : World) :
  (multiNodePredicate w).1 =
    match err (currentPrecheck w) with
    | Some _ => false
    | None => precheckSucceeded (currentPrecheck w) && negb (isSNO (currentPrecheck w))
    end.
Proof.
  unfold multiNodePredicate, currentPrecheck, mbind, M_bind, NewIsSingleNodePlatformFn.
  destruct (precheckAt w (calls w)) as [sno ok [e|]]; simpl; [reflexivity|].
  destruct ok; reflexivity.
Qed.

Lemma singleNodePredicate_value (w : World) :
  (singleNodePredicate w).1 =
    match err (currentPrecheck w) with
    | Some _ => false
    | None => precheckSucceeded (currentPrecheck w) && isSNO (currentPrecheck w)
    end.
Proof.
  unfold singleNodePredicate, currentPrecheck, mbind, M_bind, NewIsSingleNodePlatformFn.
  destruct (precheckAt w (calls w)) as [sno ok [e|]]; simpl; [reflexivity|].
  destruct ok; reflexivity.
Qed.

(** Each predicate makes exactly one call of the precheck and leaves what
    later calls will see untouched. *)
Lemma multiNodePredicate_world (w : World) :
  calls (multiNodePredicate w).2 = S (calls w) /\
  precheckAt (multiNodePredicate w).2 = precheckAt w.
Proof.
  unfold multiNodePredicate, mbind, M_bind, NewIsSingleNodePlatformFn.
  destruct (precheckAt w (calls w)) as [sno ok [e|]]; simpl; [auto|].
  destruct ok; simpl; auto.
Qed.

Lemma singleNodePredicate_world (w : World) :
  calls (singleNodePredicate w).2 = S (calls w) /\
  precheckAt (singleNodePredicate w).2 = precheckAt w.
Proof.
  unfold singleNodePredicate, mbind, M_bind, NewIsSingleNodePlatformFn.
  destruct (precheckAt w (calls w)) as [sno ok [e|]]; simpl; [auto|].
  destruct ok; simpl; auto.
Qed.

(** Evaluated on one precheck outcome, the two predicates are never both
    true. *)
Lemma not_both_on_one_outcome (w w' : World) :
  currentPrecheck w = currentPrecheck w' ->
  (multiNodePredicate w).1 && (singleNodePredicate w').1 = false.
Proof.
  intros Hsame.
  rewrite multiNodePredicate_value, singleNodePredicate_value, <- Hsame.
  destruct (currentPrecheck w) as [sno ok [e|]]; simpl; [reflexivity|].
  destruct ok, sno; reflexivity.
Qed.

(** The pass: the first predicate sees the outcome of call [calls w], the
    second that of the call after it. *)
Lemma evaluatePredicates_unfold (w : World) :
  let w1 := (multiNodePredicate w).2 in
  evaluatePredicates w =
    (((multiNodePredicate w).1, (singleNodePredicate w1).1),
     (singleNodePredicate w1).2).
Proof.
  unfold evaluatePredicates, mbind, M_bind, mret, M_ret; simpl.
  destruct (multiNodePredicate w) as [multi w1]; simpl.
  destruct (singleNodePredicate w1) as [single w2]; reflexivity.
Qed.

End ConditionalResourcesFacts.

Section ConditionalResourcesClaims.

Import ConditionalResources.

(** C1: evaluated on one precheck outcome, at most one of the multi-node
    and single-node predicates returns true; and when that outcome is
    indeterminate (the precheck returned an error or did not succeed) both
    return false, so neither resource set is enabled. *)
Theorem predicates_exclusive_and_closed (w w' : World) :
  currentPrecheck w = currentPrecheck w' ->
  (multiNodePredicate w).1 && (singleNodePredicate w').1 = false /\
  (indeterminate (currentPrecheck w) ->
   (multiNodePredicate w).1 = false /\ (singleNodePredicate w').1 = false).
Proof.
  intros Hsame. split; [by apply not_both_on_one_outcome|].
  intros Hind.
  rewrite multiNodePredicate_value, singleNodePredicate_value, <- Hsame.
  destruct (currentPrecheck w) as [sno ok [e|]]; simpl; [auto|].
  destruct Hind as [Herr|Hok]; simpl in *; [congruence|].
  subst ok; auto.
Qed.

Lemma predicates_exclusive_and_closed_witness :
  (multiNodePredicate (Examples.steady Examples.failed)).1 = false /\
  (singleNodePredicate (Examples.steady Examples.failed)).1 = false.
Proof.
  apply (predicates_exclusive_and_closed
           (Examples.steady Examples.failed) (Examples.steady Examples.failed)).
  - reflexivity.
  - left. discriminate.
Defined.

(** C2, as the claim has it, fails: when the informer's cache changes
    between the two calls, the pass returns a pair of values that no single
    precheck outcome gives, and it has made two calls, not one. *)
Lemma predicates_share_one_read_counterexample :
  ~ (exists w1 : World,
       (evaluatePredicates Examples.topologyFlips).1
         = ((multiNodePredicate w1).1, (singleNodePredicate w1).1)) /\
  (evaluatePredicates Examples.topologyFlips).1 = (true, true) /\
  calls (evaluatePredicates Examples.topologyFlips).2
    = S (S (calls Examples.topologyFlips)).
Proof.
  split; [|split; reflexivity].
  intros [w1 Heq].
  change ((true, true) = ((multiNodePredicate w1).1, (singleNodePredicate w1).1)) in Heq.
  injection Heq as Hm Hs.
  pose proof (not_both_on_one_outcome w1 w1 eq_refl) as Hno.
  rewrite <- Hm, <- Hs in Hno. discriminate.
Qed.

(** C2, amended: in one pass each predicate makes its own call of the
    precheck, two calls in all; the multi-node predicate is evaluated on the
    outcome of the first and the single-node predicate on the outcome of
    the second.  When the two calls return the same outcome, both values
    come from that one outcome and they are not both true. *)
Theorem pass_reads_topology_twice (w : World) :
  calls (evaluatePredicates w).2 = S (S (calls w)) /\
  (forall wa wb : World,
     currentPrecheck wa = precheckAt w (calls w) ->
     currentPrecheck wb = precheckAt w (S (calls w)) ->
     (evaluatePredicates w).1 =
       ((multiNodePredicate wa).1, (singleNodePredicate wb).1)) /\
  (precheckAt w (calls w) = precheckAt w (S (calls w)) ->
   (evaluatePredicates w).1 =
     ((multiNodePredicate w).1, (singleNodePredicate w).1) /\
   (evaluatePredicates w).1 <> (true, true)).
Proof.
  pose proof (evaluatePredicates_unfold w) as Hpass. simpl in Hpass.
  destruct (multiNodePredicate_world w) as [Hcalls Hview].
  set (w1 := (multiNodePredicate w).2) in *.
  destruct (singleNodePredicate_world w1) as [Hcalls1 _].
  assert (Hsecond : currentPrecheck w1 = precheckAt w (S (calls w))).
  { unfold currentPrecheck. by rewrite Hview, Hcalls. }
  rewrite Hpass; simpl. split; [by rewrite Hcalls1, Hcalls|]. split.
  - intros wa wb Ha Hb. f_equal.
    + rewrite !multiNodePredicate_value. by rewrite Ha.
    + rewrite !singleNodePredicate_value. by rewrite Hsecond, Hb.
  - intros Hsame.
    assert (Heq : (singleNodePredicate w1).1 = (singleNodePredicate w).1).
    { rewrite !singleNodePredicate_value, Hsecond, <- Hsame. reflexivity. }
    rewrite Heq. split; [reflexivity|].
    intros Hboth. injection Hboth as Hm Hs.
    pose proof (not_both_on_one_outcome w w eq_refl) as Hno.
    rewrite Hm, Hs in Hno. discriminate.
Qed.

Lemma pass_reads_topology_twice_witness :
  (evaluatePredicates (Examples.steady Examples.singleNode)).1 = (false, true) /\
  (evaluatePredicates (Examples.steady Examples.singleNode)).1 <> (true, true).
Proof.
  destruct (pass_reads_topology_twice (Examples.steady Examples.singleNode))
    as (_ & _ & Hsame).
  destruct (Hsame eq_refl) as [Hval Hnot].
  split; [exact Hval | exact Hnot].
Defined.

End ConditionalResourcesClaims.

(** * Properties of [RunOperator] *)

Section RunOperatorFacts.

(** The receive on the [Done] channel has not gone through exactly when the
    channel stayed open at every tick watched. *)
Lemma awaitDone_None (done : nat -> bool) (ticks now : nat) :
  awaitDone done ticks now = None <->
  forall k : nat, (k < ticks)%nat -> done (now + k)%nat = false.
Proof.
  revert now. induction ticks as [|ticks IH]; intros now; simpl.
  - split; [intros _ k Hk; lia | reflexivity].
  - destruct (done now) eqn:Hnow.
    + split; [discriminate|].
      intros Hall. specialize (Hall 0%nat ltac:(lia)).
      rewrite Nat.add_0_r in Hall. congruence.
    + rewrite IH. split.
      * intros Hall [|k] Hk; [by rewrite Nat.add_0_r|].
        replace (now + S k)%nat with (S now + k)%nat by lia.
        apply Hall. lia.
      * intros Hall k Hk.
        replace (S now + k)%nat with (now + S k)%nat by lia.
        apply Hall. lia.
Qed.

(** Past start-up the outcome is decided by the [Done] channel alone. *)
Lemma RunOperator_after_startup (env : Environment) (ticks : nat) :
  startupSucceeds env ->
  (RunOperator env ticks).1 =
    match awaitDone (ctx_Done env) ticks 0 with
    | Some _ => Returned (Some "stopped")
    | None => Blocked
    end.
Proof.
  intros (Hk & Hc & Ha & Ho & Hm1 & Hm2). unfold RunOperator.
  rewrite Hk, Hc, Ha, Ho.
  destruct (assets_ReadFile env "csi_controller_deployment.yaml") as [m1 e1].
  destruct (assets_ReadFile env "webhook_deployment.yaml") as [m2 e2].
  simpl in Hm1, Hm2. subst e1 e2.
  destruct (awaitDone (ctx_Done env) ticks 0); reflexivity.
Qed.

(** Whatever the environment, a return of [RunOperator] carries an
    error. *)
Lemma RunOperator_not_nil (env : Environment) (ticks : nat) :
  (RunOperator env ticks).1 <> Returned None.
Proof.
  unfold RunOperator.
  destruct (kubeclient_NewForConfig env); [discriminate|].
  destruct (configclient_NewForConfig env); [discriminate|].
  destruct (apiextclient_NewForConfig env); [discriminate|].
  destruct (goc_NewClusterScopedOperatorClientWithConfigName env); [discriminate|].
  destruct (assets_ReadFile env "csi_controller_deployment.yaml") as [m1 [e1|]];
    [discriminate|].
  destruct (assets_ReadFile env "webhook_deployment.yaml") as [m2 [e2|]];
    [discriminate|].
  destruct (awaitDone (ctx_Done env) ticks 0); discriminate.
Qed.

(** C5: once start-up has gone through, [RunOperator] stays blocked for as
    long as the cancellation signal has not fired and returns the error
    "stopped" once it has; and in no case, start-up passed or not, does it
    return a nil error. *)
Theorem RunOperator_stopped (env : Environment) (ticks : nat) :
  (RunOperator env ticks).1 <> Returned None /\
  (startupSucceeds env ->
   ((forall k : nat, (k < ticks)%nat -> ctx_Done env k = false) ->
    (RunOperator env ticks).1 = Blocked) /\
   ((exists n : nat, (n < ticks)%nat /\ ctx_Done env n = true) ->
    (RunOperator env ticks).1 = Returned (Some "stopped"))).
Proof.
  split; [apply RunOperator_not_nil|].
  intros Hstart. rewrite (RunOperator_after_startup env ticks Hstart).
  split.
  - intros Hopen.
    assert (Hnone : awaitDone (ctx_Done env) ticks 0 = None)
      by (apply awaitDone_None; intros k Hk; by apply Hopen).
    by rewrite Hnone.
  - intros (n & Hn & Hfired).
    destruct (awaitDone (ctx_Done env) ticks 0) eqn:Hwait; [reflexivity|].
    pose proof (proj1 (awaitDone_None _ _ _) Hwait n Hn) as Hopen.
    simpl in Hopen. congruence.
Qed.

Lemma RunOperator_stopped_witness :
  (RunOperator (Examples.healthy 3) 3).1 = Blocked /\
  (RunOperator (Examples.healthy 3) 5).1 = Returned (Some "stopped").
Proof.
  split.
  - apply (RunOperator_stopped (Examples.healthy 3) 3).
    + repeat split.
    + intros k Hk. destruct k as [|[|[|k]]]; [reflexivity..|lia].
  - apply (RunOperator_stopped (Examples.healthy 3) 5).
    + repeat split.
    + exists 3%nat. split; [lia | reflexivity].
Defined.

(** C7: when building one of the four clients or reading one of the two
    deployment manifests fails, [RunOperator] returns the error of the
    first step that failed, however long it is watched and whatever the
    [Done] channel does, and it has had no effect: no informer was started
    and no controller was launched. *)
Theorem RunOperator_startup_failure (env : Environment) (ticks : nat) :
  startupFails env ->
  exists e : error,
    head (startupErrors env) = Some e /\
    RunOperator env ticks = (Returned (Some e), []) /\
    Forall (fun x => startsSomething x = false) (RunOperator env ticks).2.
Proof.
  unfold startupFails, startupErrors, RunOperator.
  destruct (kubeclient_NewForConfig env) as [e1|];
    [intros _; exists e1; simpl; auto|].
  destruct (configclient_NewForConfig env) as [e2|];
    [intros _; exists e2; simpl; auto|].
  destruct (apiextclient_NewForConfig env) as [e3|];
    [intros _; exists e3; simpl; auto|].
  destruct (goc_NewClusterScopedOperatorClientWithConfigName env) as [e4|];
    [intros _; exists e4; simpl; auto|].
  destruct (assets_ReadFile env "csi_controller_deployment.yaml") as [m1 [e5|]];
    [intros _; exists e5; simpl; auto|].
  destruct (assets_ReadFile env "webhook_deployment.yaml") as [m2 [e6|]];
    [intros _; exists e6; simpl; auto|].
  simpl. intros Hfail. exfalso. tauto.
Qed.

Lemma RunOperator_startup_failure_witness :
  exists e : error,
    head (startupErrors Examples.webhookAssetMissing) = Some e /\
    RunOperator Examples.webhookAssetMissing 7 = (Returned (Some e), []) /\
    Forall (fun x => startsSomething x = false)
      (RunOperator Examples.webhookAssetMissing 7).2.
Proof.
  apply (RunOperator_startup_failure Examples.webhookAssetMissing 7).
  unfold startupFails. do 5 right. simpl. discriminate.
Defined.

End RunOperatorFacts.

(** * Properties of the version record *)

Section VersionTrackerFacts.

Import VersionTracker.

Lemma aggregationPass_target (rec : VersionRecord) (obs : SubComponents) :
  target (aggregationPass rec obs) = target rec.
Proof. unfold aggregationPass. by destruct (allConfirm (target rec) obs). Qed.

(** A pass leaves a component that is at the target where it is. *)
Lemma aggregationPass_keeps_target (rec : VersionRecord) (obs : SubComponents)
    (component : string) :
  reported rec !! component = Some (target rec) ->
  reported (aggregationPass rec obs) !! component = Some (target rec).
Proof.
  intros Hat. unfold aggregationPass.
  destruct (allConfirm (target rec) obs); [|exact Hat].
  simpl. by rewrite lookup_fmap, Hat.
Qed.

Lemma aggregate_keeps_target (passes : list SubComponents) :
  forall (rec : VersionRecord) (component : string),
    reported rec !! component = Some (target rec) ->
    reported (aggregate rec passes) !! component = Some (target rec) /\
    target (aggregate rec passes) = target rec.
Proof.
  unfold aggregate.
  induction passes as [|obs passes IH]; intros rec component Hat; simpl.
  - auto.
  - pose proof (aggregationPass_target rec obs) as Htgt.
    destruct (IH (aggregationPass rec obs) component) as [Hrep Htgt'].
    + rewrite Htgt. by apply aggregationPass_keeps_target.
    + rewrite Hrep, Htgt', Htgt. auto.
Qed.

(** C6: a component whose reported version equals the target keeps that
    version through every later aggregation pass, whatever the
    sub-components are observed to run; and a pass that moves a component
    to the target is one in which the operator pod image, the operand
    deployment and the webhook deployment all confirm the target. *)
Theorem reported_version_never_regresses (rec : VersionRecord)
    (component : string) :
  (forall passes : list SubComponents,
     reported rec !! component = Some (target rec) ->
     reported (aggregate rec passes) !! component = Some (target rec)) /\
  (forall (obs : SubComponents) (v : string),
     reported rec !! component = Some v ->
     v <> target rec ->
     reported (aggregationPass rec obs) !! component = Some (target rec) ->
     operatorPodImage obs = target rec /\
     operandDeployment obs = target rec /\
     webhookDeployment obs = target rec).
Proof.
  split.
  - intros passes Hat. by apply aggregate_keeps_target.
  - intros obs v Hv Hne. unfold aggregationPass.
    destruct (allConfirm (target rec) obs) eqn:Hall.
    + intros _. unfold allConfirm in Hall.
      apply andb_prop in Hall as [Hall Hweb].
      apply andb_prop in Hall as [Hpod Hoperand].
      by rewrite !String.eqb_eq in *.
    + intros Hrep. rewrite Hv in Hrep. congruence.
Qed.

Lemma reported_version_never_regresses_witness :
  reported (aggregate Examples.upToDate
              [Examples.webhookBehind; Examples.allAtTarget; Examples.webhookBehind])
    !! "csi-snapshot-controller" = Some "4.12.0" /\
  (operatorPodImage Examples.allAtTarget = "4.12.0" /\
   operandDeployment Examples.allAtTarget = "4.12.0" /\
   webhookDeployment Examples.allAtTarget = "4.12.0").
Proof.
  split.
  - apply (reported_version_never_regresses Examples.upToDate "csi-snapshot-controller").
    reflexivity.
  - apply (reported_version_never_regresses Examples.upgrading
             "csi-snapshot-controller") with (v := "4.11.3").
    + reflexivity.
    + discriminate.
    + reflexivity.
Defined.

End VersionTrackerFacts.

(** * Properties of the verbosity mapping *)

Section LogLevelFacts.

(** The values of the mapping, one by one. *)
Lemma LogLevelToVerbosity_cases (l : operatorv1.LogLevel) :
  (loglevel.ordinal l = Some 0%nat /\ loglevel.LogLevelToVerbosity l = 2) \/
  (loglevel.ordinal l = Some 1%nat /\ loglevel.LogLevelToVerbosity l = 4) \/
  (loglevel.ordinal l = Some 2%nat /\ loglevel.LogLevelToVerbosity l = 6) \/
  (loglevel.ordinal l = Some 3%nat /\ loglevel.LogLevelToVerbosity l = 8) \/
  (loglevel.ordinal l = None /\ loglevel.LogLevelToVerbosity l = 2).
Proof.
  unfold loglevel.ordinal, loglevel.LogLevelToVerbosity.
  destruct (String.eqb l operatorv1.Normal); [auto|].
  destruct (String.eqb l operatorv1.Debug); [auto|].
  destruct (String.eqb l operatorv1.Trace); [auto|].
  destruct (String.eqb l operatorv1.TraceAll); auto 6.
Qed.

(** C8: the verbosity mapping is a function defined on every log level,
    its values lie between 0 and 10, and it is monotonic on the valid
    levels: a level later in the enum has a verbosity at least as
    large. *)
Theorem LogLevelToVerbosity_monotonic (a b : operatorv1.LogLevel) :
  (0 <= loglevel.LogLevelToVerbosity a <= 10) /\
  (a = b -> loglevel.LogLevelToVerbosity a = loglevel.LogLevelToVerbosity b) /\
  (forall i j : nat,
     loglevel.ordinal a = Some i -> loglevel.ordinal b = Some j ->
     (i <= j)%nat ->
     loglevel.LogLevelToVerbosity a <= loglevel.LogLevelToVerbosity b).
Proof.
  split; [|split].
  - destruct (LogLevelToVerbosity_cases a) as [H|[H|[H|[H|H]]]];
      destruct H as [_ ->]; lia.
  - by intros ->.
  - intros i j Hi Hj Hle.
    destruct (LogLevelToVerbosity_cases a) as [H|[H|[H|[H|H]]]];
      destruct H as [Ha ->]; rewrite Ha in Hi;
      destruct (LogLevelToVerbosity_cases b) as [H|[H|[H|[H|H]]]];
      destruct H as [Hb ->]; rewrite Hb in Hj;
      simplify_eq; lia.
Qed.

Lemma LogLevelToVerbosity_monotonic_witness :
  loglevel.LogLevelToVerbosity operatorv1.Debug
    <= loglevel.LogLevelToVerbosity operatorv1.TraceAll.
Proof.
  apply (LogLevelToVerbosity_monotonic operatorv1.Debug operatorv1.TraceAll)
    with (i := 1%nat) (j := 3%nat).
  - reflexivity.
  - reflexivity.
  - lia.
Defined.

End LogLevelFacts.

(** * Properties of the replacer *)

Section ReplacerFacts.

Lemma HasPrefix_prefix (s p : list byte) :
  strings.HasPrefix s p = true <-> p `prefix_of` s.
Proof.
  revert s. induction p as [|c p IH]; intros [|d s]; simpl.
  - split; [intros _; apply prefix_nil | done].
  - split; [intros _; apply prefix_nil | done].
  - split; [done | intros H; by apply prefix_nil_not in H].
  - rewrite andb_true_iff, IH. split.
    + intros [Hc Hp]. apply Byte.byte_dec_bl in Hc as ->. by apply prefix_cons.
    + intros H. split.
      * apply Byte.byte_dec_lb. symmetry. by eapply prefix_cons_inv_1.
      * by eapply prefix_cons_inv_2.
Qed.

Lemma HasPrefix_false (s p : list byte) :
  strings.HasPrefix s p = false <-> ~ p `prefix_of` s.
Proof.
  rewrite <- HasPrefix_prefix. by destruct (strings.HasPrefix s p).
Qed.

(** The replacer on inputs of Go's own documentation and tests: old
    strings are tried in argument order, matches do not overlap, and an
    empty old string matches once at every position. *)
Example Replace_html :
  strings.Replace (strings.NewReplacer [("<", "&lt;"); (">", "&gt;")])
    "This is <b>HTML</b>!" = "This is &lt;b&gt;HTML&lt;/b&gt;!".
Proof. reflexivity. Qed.

Example Replace_argument_order :
  strings.Replace (strings.NewReplacer [("a", "1"); ("aa", "2"); ("aaa", "3")])
    "aaaa" = "1111" /\
  strings.Replace (strings.NewReplacer [("aaa", "3"); ("aa", "2"); ("a", "1")])
    "aaaa" = "31".
Proof. split; reflexivity. Qed.

Example Replace_empty_old :
  strings.Replace (strings.NewReplacer [("", "<>"); ("o", "X")]) "oiio"
    = "<>X<>i<>i<>X<>" /\
  strings.Replace (strings.NewReplacer [("o", "X"); ("", "<>")]) "oiio"
    = "X<>i<>iX<>".
Proof. split; reflexivity. Qed.

(** With no empty old string the flag for an empty match plays no part. *)
Lemma lookup_ignoreRoot (r : strings.Replacer) (s : list byte) (ignoreRoot : bool) :
  strings.keysNotEmpty r ->
  strings.lookup_ r s ignoreRoot = strings.lookup_ r s false.
Proof.
  unfold strings.keysNotEmpty.
  induction 1 as [|[old new] r' Hold _ IH]; simpl; [reflexivity|].
  destruct old as [|c old]; [done|]. simpl.
  by rewrite IH, andb_false_r.
Qed.

(** A match is a match of one of the old strings, and it is not empty. *)
Lemma lookup_Some (r : strings.Replacer) (s val : list byte) (keylen : nat) :
  strings.keysNotEmpty r ->
  strings.lookup_ r s false = Some (val, keylen) ->
  exists old t : list byte,
    (old, val) ∈ r /\ keylen = length old /\ (0 < keylen)%nat /\ s = old ++ t.
Proof.
  unfold strings.keysNotEmpty.
  induction 1 as [|[old new] r' Hold _ IH]; simpl; [done|].
  rewrite andb_true_r.
  destruct (strings.HasPrefix s old) eqn:Hpre.
  - intros [= <- <-]. apply HasPrefix_prefix in Hpre as [t ->].
    exists old, t. repeat split; [by left|].
    destruct old; [done | simpl; lia].
  - intros Hl. destruct (IH Hl) as (old' & t & Hin & Hlen & Hpos & Hs).
    exists old', t. repeat split; [by right|done..].
Qed.

(** A match lies within what is left of the input, and right after an
    empty match it is not empty. *)
Lemma lookup_bounds (r : strings.Replacer) (s val : list byte)
    (ignoreRoot : bool) (keylen : nat) :
  strings.lookup_ r s ignoreRoot = Some (val, keylen) ->
  (keylen <= length s)%nat /\ (ignoreRoot = true -> (0 < keylen)%nat).
Proof.
  induction r as [|[old new] r IH]; simpl; [done|].
  destruct (strings.HasPrefix s old) eqn:Hpre; simpl; [|exact IH].
  destruct (negb (ignoreRoot && (length old =? 0)%nat)) eqn:Hroot; [|exact IH].
  intros [= <- <-]. split.
  - apply HasPrefix_prefix in Hpre. by apply prefix_length.
  - intros ->. simpl in Hroot. apply negb_true_iff, Nat.eqb_neq in Hroot. lia.
Qed.

(** Enough rounds are enough.  Every round consumes a byte, or is an empty
    match that the next round will not repeat; so with more than
    [2 * length s + 1] rounds ([2 * length s] right after an empty match)
    the scan ends before the rounds do, and its result does not depend on
    how many it was given.  This holds for every replacer, empty old
    strings included. *)
Lemma replaceLoop_rounds (r : strings.Replacer) (f1 : nat) :
  forall (f2 : nat) (s : list byte) (prev : bool),
    (2 * length s + (if prev then 0 else 1) < f1)%nat ->
    (2 * length s + (if prev then 0 else 1) < f2)%nat ->
    strings.replaceLoop r f1 s prev = strings.replaceLoop r f2 s prev.
Proof.
  induction f1 as [|f1 IH]; intros [|f2] s prev H1 H2; try lia. simpl.
  destruct (strings.lookup_ r s prev) as [[val keylen]|] eqn:Hl.
  - destruct (lookup_bounds _ _ _ _ _ Hl) as [Hle Hpos].
    f_equal. pose proof (length_drop s keylen) as Hdrop.
    destruct keylen as [|keylen]; simpl Nat.eqb.
    + destruct prev; [specialize (Hpos eq_refl); lia|].
      rewrite drop_0. apply IH; lia.
    + apply IH; destruct prev; lia.
  - destruct s as [|c s]; [reflexivity|].
    f_equal. simpl in H1, H2. apply IH; destruct prev; lia.
Qed.

(** The scan, one step at a time. *)
Lemma replaceBytes_unfold (r : strings.Replacer) (s : list byte) :
  strings.keysNotEmpty r ->
  strings.replaceBytes r s =
    match strings.lookup_ r s false with
    | Some (val, keylen) => val ++ strings.replaceBytes r (drop keylen s)
    | None =>
        match s with
        | [] => []
        | c :: s' => c :: strings.replaceBytes r s'
        end
    end.
Proof.
  intros Hkeys. unfold strings.replaceBytes.
  replace (2 * length s + 2)%nat with (S (2 * length s + 1)) by lia.
  cbn [strings.replaceLoop].
  destruct (strings.lookup_ r s false) as [[val keylen]|] eqn:Hl.
  - destruct (lookup_Some _ _ _ _ Hkeys Hl) as (old & t & _ & -> & Hpos & ->).
    rewrite drop_app_length.
    replace (length old =? 0)%nat with false by (symmetry; apply Nat.eqb_neq; lia).
    f_equal. rewrite length_app. apply replaceLoop_rounds; lia.
  - destruct s as [|c s]; [reflexivity|].
    f_equal. cbn [length]. apply replaceLoop_rounds; lia.
Qed.

End ReplacerFacts.

(** * Properties of the manifest hook *)

Section HookFacts.

Variable imageName : string.
Variable spec : OperatorSpec.

Lemma hook_keysNotEmpty :
  strings.keysNotEmpty (strings.NewReplacer (hookPairs imageName spec)).
Proof. repeat constructor; discriminate. Qed.

(** The hook is the replacer run over the manifest's bytes; its error is
    always nil. *)
Lemma hook_eq (manifest : list byte) :
  replacePlaceholdersHook imageName spec manifest =
    (strings.replaceBytes (strings.NewReplacer (hookPairs imageName spec)) manifest,
     None).
Proof.
  unfold replacePlaceholdersHook, strings.Replace, bytes, string_.
  by rewrite !list_byte_of_string_of_list_byte.
Qed.

Lemma hook_lookup (s : list byte) :
  strings.lookup_ (strings.NewReplacer (hookPairs imageName spec)) s false =
    if strings.HasPrefix s (bytes (token OPERAND_IMAGE))
    then Some (bytes (tokenValue imageName spec OPERAND_IMAGE),
               length (bytes (token OPERAND_IMAGE)))
    else if strings.HasPrefix s (bytes (token LOG_LEVEL))
    then Some (bytes (tokenValue imageName spec LOG_LEVEL),
               length (bytes (token LOG_LEVEL)))
    else None.
Proof.
  unfold hookPairs, strings.NewReplacer.
  cbn [map strings.lookup_ token tokenValue].
  by rewrite !andb_true_r.
Qed.

(** The known tokens start with [$] and have no other [$]. *)
Lemma token_shape (p : Placeholder) :
  exists tl : list byte,
    bytes (token p) = "$"%byte :: tl /\ ("$"%byte ∉ tl) /\
    (forall b : byte, b ∈ tl -> b ∈ tokenBytes).
Proof.
  destruct p; eexists; (split; [reflexivity|]); split.
  - compute_done.
  - intros b Hb. unfold tokenBytes. apply elem_of_app. left.
    change (b ∈ "$"%byte :: bytes "{OPERAND_IMAGE}"). by right.
  - compute_done.
  - intros b Hb. unfold tokenBytes. apply elem_of_app. right.
    change (b ∈ "$"%byte :: bytes "{LOG_LEVEL}"). by right.
Qed.

Lemma tokenAt_true (s : list byte) :
  tokenAt s = true <-> exists p : Placeholder, bytes (token p) `prefix_of` s.
Proof.
  unfold tokenAt. rewrite orb_true_iff, !HasPrefix_prefix. split.
  - intros [H|H]; [by exists OPERAND_IMAGE | by exists LOG_LEVEL].
  - intros [[] H]; auto.
Qed.

Lemma tokenAt_false (s : list byte) :
  tokenAt s = false <-> forall p : Placeholder, ~ bytes (token p) `prefix_of` s.
Proof.
  rewrite <- not_true_iff_false, tokenAt_true. split.
  - intros Hno p Hp. apply Hno. by exists p.
  - intros Hno [p Hp]. by apply (Hno p).
Qed.

Lemma tokenAt_head (c : byte) (s : list byte) :
  tokenAt (c :: s) = true -> c = "$"%byte.
Proof.
  rewrite tokenAt_true. intros [p Hp].
  destruct (token_shape p) as (tl & Htok & _). rewrite Htok in Hp.
  symmetry. by eapply prefix_cons_inv_1.
Qed.

Lemma tokenAt_app (a s : list byte) :
  tokenAt a = true -> tokenAt (a ++ s) = true.
Proof.
  rewrite !tokenAt_true. intros [p Hp]. exists p. by apply prefix_app_r.
Qed.

(** A token that starts in [a] does not reach into what follows when that
    starts with [$]: the tokens have no [$] past their first byte. *)
Lemma tokenAt_boundary (a s : list byte) :
  a <> [] -> head s = Some "$"%byte \/ s = [] ->
  tokenAt (a ++ s) = true -> tokenAt a = true.
Proof.
  intros Ha Hs. rewrite !tokenAt_true. intros [p [t Hp]]. exists p.
  destruct (token_shape p) as (tl & Htok & Hno & _).
  apply app_eq_inv in Hp as [(k & Hk & _)|(k & Hk & Hs')].
  - by exists k.
  - destruct k as [|d k]; [exists []; by rewrite Hk, !app_nil_r|].
    exfalso. destruct Hs as [Hs| ->]; [|done].
    rewrite Hs' in Hs. simpl in Hs. injection Hs as ->.
    destruct a as [|a0 a]; [done|].
    rewrite Htok in Hk. injection Hk as _ ->.
    apply Hno, elem_of_app. right. by left.
Qed.

(** The hook's scan, one step at a time. *)
Lemma substitute_nil : substitute [] spec imageName = [].
Proof.
  unfold substitute. rewrite hook_eq. simpl.
  by rewrite replaceBytes_unfold, hook_lookup by apply hook_keysNotEmpty.
Qed.

Lemma substitute_token (p : Placeholder) (s : list byte) :
  substitute (bytes (token p) ++ s) spec imageName =
    bytes (tokenValue imageName spec p) ++ substitute s spec imageName.
Proof.
  unfold substitute. rewrite !hook_eq. cbn [fst].
  rewrite replaceBytes_unfold, hook_lookup by apply hook_keysNotEmpty.
  destruct p.
  - assert (Hpre : strings.HasPrefix (bytes (token OPERAND_IMAGE) ++ s)
                     (bytes (token OPERAND_IMAGE)) = true)
      by (apply HasPrefix_prefix, prefix_app_r; done).
    by rewrite Hpre, drop_app_length.
  - assert (Hpre : strings.HasPrefix (bytes (token LOG_LEVEL) ++ s)
                     (bytes (token LOG_LEVEL)) = true)
      by (apply HasPrefix_prefix, prefix_app_r; done).
    assert (Hother : strings.HasPrefix (bytes (token LOG_LEVEL) ++ s)
                       (bytes (token OPERAND_IMAGE)) = false)
      by reflexivity.
    by rewrite Hother, Hpre, drop_app_length.
Qed.

Lemma substitute_copy (c : byte) (s : list byte) :
  tokenAt (c :: s) = false ->
  substitute (c :: s) spec imageName = c :: substitute s spec imageName.
Proof.
  unfold tokenAt. intros [H1 H2]%orb_false_elim.
  unfold substitute. rewrite !hook_eq. cbn [fst].
  rewrite replaceBytes_unfold, hook_lookup by apply hook_keysNotEmpty.
  by rewrite H1, H2.
Qed.

(** Bytes free of [$] are copied. *)
Lemma substitute_no_dollar (x s : list byte) :
  "$"%byte ∉ x -> substitute (x ++ s) spec imageName = x ++ substitute s spec imageName.
Proof.
  induction x as [|c x IH]; intros Hno; [reflexivity|].
  apply not_elem_of_cons in Hno as [Hc Hx]. simpl.
  rewrite substitute_copy, IH; [done..|].
  apply not_true_iff_false. intros Hat. apply tokenAt_head in Hat. congruence.
Qed.

(** A manifest with no occurrence of a known token is returned as it
    is. *)
Lemma substitute_token_free (s : list byte) :
  hasToken s = false -> substitute s spec imageName = s.
Proof.
  induction s as [|c s IH]; [intros _; apply substitute_nil|].
  simpl. intros [Hat Hrest]%orb_false_elim.
  by rewrite substitute_copy, IH.
Qed.

(** The scan of [a ++ s] is the scan of [a] followed by the scan of [s]
    when [s] starts with [$] or is empty: no match runs across the
    seam. *)
Lemma substitute_app (n : nat) :
  forall a s : list byte,
    (length a <= n)%nat ->
    head s = Some "$"%byte \/ s = [] ->
    substitute (a ++ s) spec imageName =
      substitute a spec imageName ++ substitute s spec imageName.
Proof.
  induction n as [|n IH]; intros [|c a] s Hlen Hs; simpl in Hlen; try lia;
    try (by rewrite substitute_nil).
  destruct (tokenAt ((c :: a) ++ s)) eqn:Hat.
  - apply tokenAt_boundary in Hat; [|done..].
    apply tokenAt_true in Hat as [p [k Hk]]. rewrite Hk, <- app_assoc.
    rewrite !substitute_token, <- app_assoc. f_equal.
    apply IH; [|done].
    apply (f_equal length) in Hk. rewrite length_app in Hk.
    destruct (token_shape p) as (tl & Htok & _). rewrite Htok in Hk.
    simpl in Hk. lia.
  - assert (Hat' : tokenAt (c :: a) = false).
    { apply not_true_iff_false. intros H. apply (tokenAt_app _ s) in H. congruence. }
    simpl in *. rewrite !substitute_copy by done. simpl. f_equal.
    apply IH; [lia|done].
Qed.

(** [hasToken] says what it should: a known token occurs in [l]. *)
Lemma hasToken_true (l : list byte) :
  hasToken l = true <->
  exists (a : list byte) (p : Placeholder) (b : list byte),
    l = a ++ bytes (token p) ++ b.
Proof.
  induction l as [|c l IH]; simpl.
  - split; [done|]. intros (a & p & b & Heq).
    destruct (token_shape p) as (tl & Htok & _). rewrite Htok in Heq.
    by destruct a.
  - rewrite orb_true_iff, IH, tokenAt_true. split.
    + intros [[p [k Hk]]|(a & p & b & Heq)].
      * by exists [], p, k.
      * exists (c :: a), p, b. by rewrite Heq.
    + intros ([|c' a] & p & b & Heq).
      * left. exists p, b. done.
      * right. injection Heq as -> ->. by exists a, p, b.
Qed.

Lemma render_cons (fill : Placeholder -> list byte) (lit : list byte)
    (p : Placeholder) (cs : list (list byte * Placeholder)) (tl : list byte) :
  render fill (mkTemplate ((lit, p) :: cs) tl) =
    lit ++ fill p ++ render fill (mkTemplate cs tl).
Proof. reflexivity. Qed.

(** On a manifest cut at all its token occurrences the hook puts the value
    of each token in its place and copies the rest. *)
Lemma substitute_render (cs : list (list byte * Placeholder)) (tl : list byte) :
  exhaustive (mkTemplate cs tl) ->
  substitute (manifestOf (mkTemplate cs tl)) spec imageName =
    substituted imageName spec (mkTemplate cs tl).
Proof.
  unfold exhaustive, manifestOf, substituted. simpl. intros [Hall Htl].
  induction Hall as [|[lit p] cs Hlit _ IH].
  - by apply substitute_token_free.
  - rewrite !render_cons. simpl in Hlit.
    destruct (token_shape p) as (tk & Htok & _).
    rewrite (substitute_app (length lit)); [|lia|left; by rewrite Htok].
    by rewrite (substitute_token_free lit), substitute_token, IH.
Qed.

(** Every manifest can be cut at all its token occurrences. *)
Lemma template_exists (n : nat) :
  forall m : list byte,
    (length m <= n)%nat -> exists t : Template, exhaustive t /\ manifestOf t = m.
Proof.
  induction n as [|n IH]; intros [|c m] Hlen; simpl in Hlen; try lia;
    try (by exists (mkTemplate [] []); repeat split; constructor).
  destruct (tokenAt (c :: m)) eqn:Hat.
  - apply tokenAt_true in Hat as [p [k Hk]].
    destruct (token_shape p) as (tk & Htok & _).
    destruct (IH k) as ([cs tl] & [Hall Htl] & Hm).
    { apply (f_equal length) in Hk. rewrite length_app, Htok in Hk.
      simpl in Hk. lia. }
    simpl in Hall, Htl. exists (mkTemplate (([], p) :: cs) tl). split.
    + split; [by constructor | done].
    + unfold manifestOf in *. rewrite render_cons, Hm. by rewrite Hk.
  - destruct (IH m) as ([[|[lit p] cs] tl] & [Hall Htl] & Hm); [lia|..].
    + simpl in Hall, Htl. exists (mkTemplate [] (c :: tl)).
      unfold manifestOf, render in Hm. simpl in Hm. subst tl.
      repeat split; [constructor|]. simpl. by rewrite Hat, Htl.
    + simpl in Hall, Htl. exists (mkTemplate ((c :: lit, p) :: cs) tl).
      unfold manifestOf in *. rewrite render_cons in *.
      split; [|by rewrite <- Hm].
      inversion Hall as [|? ? Hlit Hcs]; subst.
      split; [|done]. constructor; [|done]. simpl in *.
      rewrite Hlit, orb_false_r. apply not_true_iff_false. intros Hlitc.
      apply (tokenAt_app _ (bytes (token p) ++ render (fun q => bytes (token q))
                              (mkTemplate cs tl))) in Hlitc.
      simpl in Hlitc. congruence.
Qed.

(** An unknown token is copied, and the scan goes on after it as if it
    started there. *)
Lemma substitute_unknown_token (a u b : list byte) :
  unknownToken u ->
  substitute (a ++ u ++ b) spec imageName =
    substitute a spec imageName ++ u ++ substitute b spec imageName.
Proof.
  intros (name & -> & Hdollar & Hbrace & Hn1 & Hn2).
  rewrite (substitute_app (length a)); [|lia|by left]. f_equal.
  change (bytes "${" ++ name ++ bytes "}")
    with ("$"%byte :: ("{"%byte :: name ++ ["}"%byte])).
  change (("$"%byte :: ("{"%byte :: name ++ ["}"%byte])) ++ b)
    with ("$"%byte :: ("{"%byte :: name ++ ["}"%byte]) ++ b).
  rewrite substitute_copy.
  - simpl. f_equal.
    apply (substitute_no_dollar ("{"%byte :: name ++ ["}"%byte])).
    rewrite not_elem_of_cons, not_elem_of_app, not_elem_of_cons. repeat split; try done.
    apply not_elem_of_nil.
  - apply tokenAt_false. intros p Hp.
    assert (Hname : bytes (token p) = "$"%byte :: "{"%byte ::
              match p with
              | OPERAND_IMAGE => bytes "OPERAND_IMAGE"
              | LOG_LEVEL => bytes "LOG_LEVEL"
              end ++ "}"%byte :: []) by (by destruct p).
    rewrite Hname in Hp. simpl in Hp. rewrite <- app_assoc in Hp. simpl in Hp.
    apply prefix_cons_inv_2, prefix_cons_inv_2 in Hp.
    apply prefix_not_elem_of_app_cons_inv in Hp as (Heq & _ & _); [| done |].
    + destruct p; congruence.
    + destruct p; compute_done.
Qed.

End HookFacts.

(** * The decimal rendering of the verbosity *)

Section SprintFacts.

Lemma bytes_String (c : Ascii.ascii) (s : string) :
  bytes (String c s) = Ascii.byte_of_ascii c :: bytes s.
Proof. reflexivity. Qed.

Lemma string_of_uint_digits (d : Decimal.uint) :
  Forall (fun b => b ∈ bytes "0123456789") (bytes (NilEmpty.string_of_uint d)).
Proof.
  induction d; simpl; try (by constructor);
    rewrite bytes_String; (constructor; [compute_done | assumption]).
Qed.

(** [fmt.Sprint] of an [int] is never empty and holds digits and at most a
    leading minus sign. *)
Lemma fmt_Sprint_bytes (n : Z) :
  exists (c : byte) (tl : list byte),
    bytes (fmt_Sprint n) = c :: tl /\
    Forall (fun b => b ∈ bytes "-0123456789") (c :: tl).
Proof.
  assert (Hwiden : forall l : list byte,
            Forall (fun b => b ∈ bytes "0123456789") l ->
            Forall (fun b => b ∈ bytes "-0123456789") l).
  { intros l Hl. eapply Forall_impl; [exact Hl|]. intros b Hb.
    change (b ∈ "-"%byte :: bytes "0123456789"). by right. }
  assert (Huint : forall d : Decimal.uint,
            exists (c : byte) (tl : list byte),
              bytes (NilZero.string_of_uint d) = c :: tl /\
              Forall (fun b => b ∈ bytes "-0123456789") (c :: tl)).
  { intros d. pose proof (string_of_uint_digits d) as Hd.
    destruct d; simpl in *;
      try (eexists _, _; split; [reflexivity | apply Hwiden; assumption]).
    eexists _, _. split; [reflexivity|]. repeat constructor. }
  unfold fmt_Sprint. destruct (Z.to_int n) as [d|d]; simpl.
  - apply Huint.
  - destruct (Huint d) as (c & tl & Heq & Hall).
    exists "-"%byte, (c :: tl). rewrite bytes_String, Heq.
    split; [reflexivity|]. constructor; [compute_done | assumption].
Qed.

Lemma digit_not_token (b : byte) :
  b ∈ bytes "-0123456789" -> b <> "$"%byte /\ (b ∉ tokenBytes).
Proof.
  intros H. change (bytes "-0123456789") with
    ["-"; "0"; "1"; "2"; "3"; "4"; "5"; "6"; "7"; "8"; "9"]%byte in H.
  repeat (apply elem_of_cons in H as [->|H]; [split; [done | compute_done]|]).
  by apply elem_of_nil in H.
Qed.

Lemma fmt_Sprint_plain (n : Z) : plainValue (bytes (fmt_Sprint n)).
Proof.
  destruct (fmt_Sprint_bytes n) as (c & tl & -> & Hall). simpl. split.
  - intros Hin. rewrite Forall_forall in Hall.
    by destruct (digit_not_token _ (Hall _ Hin)).
  - inversion Hall; subst. by apply digit_not_token.
Qed.

End SprintFacts.

(** * Running the hook over its own output *)

Section HookIdempotence.

Variable imageName : string.
Variable spec : OperatorSpec.
Hypothesis plain : plainImageName imageName.

Lemma tokenValue_plain (p : Placeholder) :
  plainValue (bytes (tokenValue imageName spec p)).
Proof. destruct p; [exact plain | apply fmt_Sprint_plain]. Qed.

Lemma hasToken_no_dollar (x out : list byte) :
  "$"%byte ∉ x -> hasToken (x ++ out) = hasToken out.
Proof.
  induction x as [|c x IH]; intros Hno; [reflexivity|].
  apply not_elem_of_cons in Hno as [Hc Hx]. simpl. rewrite IH by done.
  replace (tokenAt (c :: x ++ out)) with false; [reflexivity|].
  symmetry. apply not_true_iff_false. intros Hat.
  apply tokenAt_head in Hat. congruence.
Qed.

(** Bytes of the tokens at the head of the output were at the head of the
    input: a value written by the hook starts with a byte no token has. *)
Lemma substitute_pullback (tk : list byte) :
  forall x : list byte,
    (forall b : byte, b ∈ tk -> b ∈ tokenBytes) ->
    tk `prefix_of` substitute x spec imageName -> tk `prefix_of` x.
Proof.
  induction tk as [|d tk IH]; intros x Htk Hpre; [apply prefix_nil|].
  destruct x as [|c x].
  - rewrite substitute_nil in Hpre. by apply prefix_nil_not in Hpre.
  - destruct (tokenAt (c :: x)) eqn:Hat.
    + exfalso. apply tokenAt_true in Hat as [p [k Hk]].
      rewrite Hk, substitute_token in Hpre.
      pose proof (tokenValue_plain p) as Hplain.
      destruct (bytes (tokenValue imageName spec p)) as [|f v]; [done|].
      destruct Hplain as [_ Hf]. simpl in Hpre.
      apply prefix_cons_inv_1 in Hpre as ->.
      apply Hf, Htk. by left.
    + rewrite substitute_copy in Hpre by done.
      pose proof (prefix_cons_inv_1 _ _ _ _ Hpre) as ->.
      apply prefix_cons, IH.
      * intros b Hb. apply Htk. by right.
      * by eapply prefix_cons_inv_2.
Qed.

(** With a plain image name the output holds no known token. *)
Lemma substitute_has_no_token (n : nat) :
  forall m : list byte,
    (length m <= n)%nat -> hasToken (substitute m spec imageName) = false.
Proof.
  induction n as [|n IH]; intros [|c m] Hlen; simpl in Hlen; try lia;
    try (by rewrite substitute_nil).
  destruct (tokenAt (c :: m)) eqn:Hat.
  - apply tokenAt_true in Hat as [p [k Hk]].
    destruct (token_shape p) as (tk & Htok & _).
    rewrite Hk, substitute_token.
    pose proof (tokenValue_plain p) as Hplain.
    destruct (bytes (tokenValue imageName spec p)) as [|f v] eqn:Hval; [done|].
    destruct Hplain as [Hno _].
    rewrite hasToken_no_dollar by done. apply IH.
    apply (f_equal length) in Hk. rewrite length_app, Htok in Hk.
    simpl in Hk. lia.
  - rewrite substitute_copy by done. simpl.
    rewrite (IH m) by lia. rewrite orb_false_r.
    apply not_true_iff_false. intros Hout.
    apply tokenAt_true in Hout as [p Hp].
    destruct (token_shape p) as (tk & Htok & _ & Hbytes).
    rewrite Htok in Hp.
    pose proof (prefix_cons_inv_1 _ _ _ _ Hp) as <-.
    apply prefix_cons_inv_2, substitute_pullback in Hp; [|done].
    assert (Hin : tokenAt ("$"%byte :: m) = true).
    { apply tokenAt_true. exists p. rewrite Htok. by apply prefix_cons. }
    congruence.
Qed.

Lemma substitute_idempotent (m : list byte) :
  substitute (substitute m spec imageName) spec imageName
    = substitute m spec imageName.
Proof.
  apply substitute_token_free, (substitute_has_no_token (length m)). lia.
Qed.

End HookIdempotence.

(** * The claims about the manifest hook *)

Section HookClaims.

(** C3, as the claim has it, fails: with an empty image name (the
    environment variable is not set) the first run turns
    [${LOG_${OPERAND_IMAGE}LEVEL}] into [${LOG_LEVEL}], and the second run
    replaces that. *)
Lemma substitute_idempotent_counterexample :
  substitute Examples.nested Examples.managed "" = bytes "${LOG_LEVEL}" /\
  substitute (substitute Examples.nested Examples.managed "") Examples.managed ""
    = bytes "2" /\
  substitute (substitute Examples.nested Examples.managed "") Examples.managed ""
    <> substitute Examples.nested Examples.managed "".
Proof.
  assert (H1 : substitute Examples.nested Examples.managed "" = bytes "${LOG_LEVEL}")
    by (vm_compute; reflexivity).
  rewrite H1. split; [reflexivity|].
  split; [vm_compute; reflexivity | vm_compute; discriminate].
Qed.

(** C3, amended: for an image name that is not empty, has no [$] and whose
    first byte occurs in neither known token, running the hook on its own
    output changes nothing; and for every image name a token [${NAME}]
    other than the two known ones is left as it is, the manifest before it
    and after it being substituted as if each stood alone. *)
Theorem substitute_idempotent_plain_image (m : list byte) (s : OperatorSpec)
    (v : string) :
  (plainImageName v -> substitute (substitute m s v) s v = substitute m s v) /\
  (forall a u b : list byte,
     m = a ++ u ++ b -> unknownToken u ->
     substitute m s v = substitute a s v ++ u ++ substitute b s v).
Proof.
  split.
  - intros Hplain. by apply substitute_idempotent.
  - intros a u b -> Hu. by apply substitute_unknown_token.
Qed.

Lemma substitute_idempotent_plain_image_witness :
  substitute (substitute Examples.deployment Examples.managed "quay.io/csi:v1")
      Examples.managed "quay.io/csi:v1"
    = substitute Examples.deployment Examples.managed "quay.io/csi:v1" /\
  substitute Examples.deployment Examples.managed "quay.io/csi:v1"
    = substitute (bytes "image: ${OPERAND_IMAGE} args: --v=${LOG_LEVEL} ")
        Examples.managed "quay.io/csi:v1"
      ++ bytes "${NODE}"
      ++ substitute (bytes " ${OPERAND_IMAGE} ${LOG_LEVEL}!")
           Examples.managed "quay.io/csi:v1".
Proof.
  destruct (substitute_idempotent_plain_image Examples.deployment Examples.managed
              "quay.io/csi:v1") as [Hidem Hunknown].
  split.
  - apply Hidem. split; compute_done.
  - apply (Hunknown (bytes "image: ${OPERAND_IMAGE} args: --v=${LOG_LEVEL} ")
             (bytes "${NODE}") (bytes " ${OPERAND_IMAGE} ${LOG_LEVEL}!")).
    + reflexivity.
    + exists (bytes "NODE"). split; [reflexivity|].
      repeat split; try discriminate; compute_done.
Defined.

(** C4: every manifest can be cut at all the occurrences of the two known
    tokens, and whichever way it is so cut the hook returns the manifest
    with each occurrence of [${OPERAND_IMAGE}] replaced by the image name,
    each occurrence of [${LOG_LEVEL}] replaced by the decimal rendering of
    the verbosity of the spec's log level, and all other bytes as they
    were. *)
Theorem hook_replaces_every_occurrence (v : string) (s : OperatorSpec)
    (m : list byte) :
  (exists t : Template, exhaustive t /\ manifestOf t = m) /\
  (forall t : Template,
     exhaustive t -> manifestOf t = m ->
     replacePlaceholdersHook v s m = (substituted v s t, None)).
Proof.
  split.
  - apply (template_exists (length m)). lia.
  - intros [cs tl] Hex <-. rewrite hook_eq. f_equal.
    pose proof (substitute_render v s cs tl Hex) as Hsub.
    unfold substitute in Hsub. by rewrite hook_eq in Hsub.
Qed.

Lemma hook_replaces_every_occurrence_witness :
  replacePlaceholdersHook "quay.io/csi:v1" Examples.managed Examples.deployment
    = (bytes "image: quay.io/csi:v1 args: --v=2 ${NODE} quay.io/csi:v1 2!", None).
Proof.
  destruct (hook_replaces_every_occurrence "quay.io/csi:v1" Examples.managed
              Examples.deployment) as [_ Hall].
  rewrite (Hall Examples.deploymentTemplate).
  - reflexivity.
  - split; [|reflexivity]. repeat constructor.
  - reflexivity.
Defined.

(** C9: the hook is a function of the image name, the manifest and the log
    level of the spec: two specs with the same log level give the same
    manifest and the same error, whatever their other fields hold. *)
Theorem hook_depends_on_LogLevel_only (v : string) (s1 s2 : OperatorSpec)
    (m : list byte) :
  LogLevel s1 = LogLevel s2 ->
  replacePlaceholdersHook v s1 m = replacePlaceholdersHook v s2 m.
Proof.
  intros Hlevel. unfold replacePlaceholdersHook. by rewrite Hlevel.
Qed.

Lemma hook_depends_on_LogLevel_only_witness :
  replacePlaceholdersHook "quay.io/csi:v1" Examples.managed Examples.deployment
    = replacePlaceholdersHook "quay.io/csi:v1" Examples.unmanagedTracing
        Examples.deployment.
Proof.
  apply (hook_depends_on_LogLevel_only "quay.io/csi:v1" Examples.managed
           Examples.unmanagedTracing Examples.deployment).
  reflexivity.
Defined.

(** C10: the hook never fails: for every image name, the empty one
    included, every spec and every manifest it returns a manifest and a nil
    error; and the replacer's scan behind it has finished within its
    rounds, more rounds change nothing. *)
Theorem hook_never_fails (v : string) (s : OperatorSpec) (m : list byte) :
  (exists out : list byte, replacePlaceholdersHook v s m = (out, None)) /\
  (exists out : list byte, replacePlaceholdersHook "" s m = (out, None)) /\
  (forall extra : nat,
     strings.replaceLoop (strings.NewReplacer (hookPairs v s))
       (2 * length m + 2 + extra) m false
     = (replacePlaceholdersHook v s m).1).
Proof.
  split; [|split].
  - eexists. apply hook_eq.
  - eexists. apply hook_eq.
  - intros extra. rewrite hook_eq. unfold strings.replaceBytes. simpl fst.
    apply replaceLoop_rounds; lia.
Qed.

End HookClaims.

(** * Further properties of the topology predicates *)

Section ConditionalResourcesMore.

Import ConditionalResources.

(** The world after a predicate, read off the precheck outcome it saw. *)
Lemma multiNodePredicate_after (w : World) :
  (multiNodePredicate w).2 =
    mkWorld (precheckAt w) (S (calls w))
      (match err (currentPrecheck w) with
       | Some e => Errorf ("NewIsSingleNodePlatformFn failed: " ++ e) :: klog w
       | None =>
           if precheckSucceeded (currentPrecheck w) then klog w
           else V4Infof "NewIsSingleNodePlatformFn precheck did not succeed, skipping"
                  :: klog w
       end).
Proof.
  unfold multiNodePredicate, currentPrecheck, mbind, M_bind, NewIsSingleNodePlatformFn.
  destruct (precheckAt w (calls w)) as [sno ok [e|]]; simpl; [reflexivity|].
  destruct ok; reflexivity.
Qed.

Lemma singleNodePredicate_after (w : World) :
  (singleNodePredicate w).2 =
    mkWorld (precheckAt w) (S (calls w))
      (match err (currentPrecheck w) with
       | Some e => Errorf ("NewIsSingleNodePlatformFn failed: " ++ e) :: klog w
       | None =>
           if precheckSucceeded (currentPrecheck w) then klog w
           else V4Infof "NewIsSingleNodePlatformFn precheck did not succeed, skipping"
                  :: klog w
       end).
Proof.
  unfold singleNodePredicate, currentPrecheck, mbind, M_bind, NewIsSingleNodePlatformFn.
  destruct (precheckAt w (calls w)) as [sno ok [e|]]; simpl; [reflexivity|].
  destruct ok; reflexivity.
Qed.

(** X1: the two predicates do the same to the world: from the same state
    they leave the same state behind, with one more precheck call counted,
    what later calls will see untouched, and the log as it was but for at
    most one new entry.  They differ in the value they return only. *)
Theorem predicates_same_effects (w : World) :
  (multiNodePredicate w).2 = (singleNodePredicate w).2 /\
  calls (multiNodePredicate w).2 = S (calls w) /\
  precheckAt (multiNodePredicate w).2 = precheckAt w /\
  exists new : list LogEntry,
    klog (multiNodePredicate w).2 = new ++ klog w /\ (length new <= 1)%nat.
Proof.
  rewrite multiNodePredicate_after, singleNodePredicate_after. simpl.
  repeat split.
  destruct (err (currentPrecheck w)) as [e|]; [eexists [_]; simpl; split; [done|lia]|].
  destruct (precheckSucceeded (currentPrecheck w)).
  - exists []. simpl. split; [done|lia].
  - eexists [_]. simpl. split; [done|lia].
Qed.

(** X2: on a determinate outcome (no error, precheck succeeded) exactly one
    of the two predicates is true: the multi-node one returns the negation
    of [isSNO], the single-node one [isSNO] itself, and nothing is
    logged. *)
Theorem predicates_complementary_when_determinate (w : World) :
  err (currentPrecheck w) = None ->
  precheckSucceeded (currentPrecheck w) = true ->
  (multiNodePredicate w).1 = negb (isSNO (currentPrecheck w)) /\
  (singleNodePredicate w).1 = isSNO (currentPrecheck w) /\
  (multiNodePredicate w).1 = negb (singleNodePredicate w).1 /\
  klog (multiNodePredicate w).2 = klog w /\
  klog (singleNodePredicate w).2 = klog w.
Proof.
  intros Herr Hok.
  rewrite multiNodePredicate_value, singleNodePredicate_value,
    multiNodePredicate_after, singleNodePredicate_after, Herr, Hok.
  simpl. auto.
Qed.

Lemma predicates_complementary_when_determinate_witness :
  (multiNodePredicate (Examples.steady Examples.multiNode)).1 = true /\
  (singleNodePredicate (Examples.steady Examples.multiNode)).1 = false.
Proof.
  destruct (predicates_complementary_when_determinate
              (Examples.steady Examples.multiNode) eq_refl eq_refl)
    as (Hm & Hs & _).
  split; [exact Hm | exact Hs].
Defined.

(** X3: an indeterminate outcome is logged once and by both predicates
    alike: an error with its message through [klog.Errorf], even when the
    precheck is reported as not succeeded as well; a precheck that did not
    succeed, without error, through [klog.V(4).Infof]. *)
Theorem predicates_log_indeterminate (w : World) :
  indeterminate (currentPrecheck w) ->
  klog (multiNodePredicate w).2 =
    match err (currentPrecheck w) with
    | Some e => Errorf ("NewIsSingleNodePlatformFn failed: " ++ e)
    | None => V4Infof "NewIsSingleNodePlatformFn precheck did not succeed, skipping"
    end :: klog w /\
  klog (singleNodePredicate w).2 = klog (multiNodePredicate w).2.
Proof.
  intros Hind. rewrite multiNodePredicate_after, singleNodePredicate_after. simpl.
  split; [|reflexivity].
  destruct (err (currentPrecheck w)) as [e|] eqn:Herr; [reflexivity|].
  destruct Hind as [Hind|Hind]; [done|]. by rewrite Hind.
Qed.

Lemma predicates_log_indeterminate_witness :
  klog (multiNodePredicate (Examples.steady Examples.notSynced)).2 =
    [V4Infof "NewIsSingleNodePlatformFn precheck did not succeed, skipping"].
Proof.
  destruct (predicates_log_indeterminate (Examples.steady Examples.notSynced))
    as [Hlog _].
  - right. reflexivity.
  - exact Hlog.
Defined.

End ConditionalResourcesMore.

(** * Further properties of [RunOperator] *)

Section RunOperatorMore.

(** The start-up steps, one after the other. *)
Ltac startup_steps env :=
  unfold RunOperator;
  destruct (kubeclient_NewForConfig env) as [?e1|] eqn:?Hkube;
  [|destruct (configclient_NewForConfig env) as [?e2|] eqn:?Hconfig;
    [|destruct (apiextclient_NewForConfig env) as [?e3|] eqn:?Hapiext;
      [|destruct (goc_NewClusterScopedOperatorClientWithConfigName env)
          as [?e4|] eqn:?Hoperator;
        [|destruct (assets_ReadFile env "csi_controller_deployment.yaml")
            as [?m1 [?e5|]] eqn:?Hasset1;
          [|destruct (assets_ReadFile env "webhook_deployment.yaml")
              as [?m2 [?e6|]] eqn:?Hasset2]]]]].

(** A receive that has gone through stays so when watched longer. *)
Lemma awaitDone_mono (done : nat -> bool) (ticks : nat) :
  forall ticks' now n : nat,
    awaitDone done ticks now = Some n -> (ticks <= ticks')%nat ->
    awaitDone done ticks' now = Some n.
Proof.
  induction ticks as [|ticks IH]; intros [|ticks'] now n Hwait Hle;
    simpl in *; try done; try lia.
  destruct (done now); [done|]. apply IH; [done|lia].
Qed.

Lemma startupFails_not_succeeds (env : Environment) :
  startupFails env <-> ~ startupSucceeds env.
Proof.
  unfold startupFails, startupSucceeds.
  destruct (kubeclient_NewForConfig env), (configclient_NewForConfig env),
    (apiextclient_NewForConfig env),
    (goc_NewClusterScopedOperatorClientWithConfigName env),
    (assets_ReadFile env "csi_controller_deployment.yaml") as [? []],
    (assets_ReadFile env "webhook_deployment.yaml") as [? []];
    simpl; split; intros H; try tauto;
    try (intros (? & ? & ? & ? & ? & ?); done);
    try (exfalso; apply H; done);
    auto 10.
Qed.

(** Something has been started after a successful start-up. *)
Lemma effects_not_nil_after_startup (env : Environment) (ticks : nat) :
  startupSucceeds env -> (RunOperator env ticks).2 <> [].
Proof.
  intros (Hk & Hc & Ha & Ho & Hm1 & Hm2). unfold RunOperator.
  rewrite Hk, Hc, Ha, Ho.
  destruct (assets_ReadFile env "csi_controller_deployment.yaml") as [m1 e1].
  destruct (assets_ReadFile env "webhook_deployment.yaml") as [m2 e2].
  simpl in Hm1, Hm2. subst e1 e2.
  destruct (awaitDone (ctx_Done env) ticks 0); discriminate.
Qed.

(** Nothing has been done when a start-up step failed. *)
Lemma effects_on_failure (env : Environment) (ticks : nat) :
  startupFails env -> (RunOperator env ticks).2 = [].
Proof.
  unfold startupFails. startup_steps env; simpl; try reflexivity.
  intros Hfail. exfalso. tauto.
Qed.

(** X4: what [RunOperator] does to the process does not depend on the
    context: everything is started before the receive on the [Done]
    channel, so another channel or a longer watch leaves the effects the
    same, a context already cancelled at the call included. *)
Theorem RunOperator_effects_do_not_wait (env : Environment)
    (done : nat -> bool) (ticks ticks' : nat) :
  (RunOperator (withDone env done) ticks').2 = (RunOperator env ticks).2.
Proof.
  unfold withDone, RunOperator. simpl.
  destruct (kubeclient_NewForConfig env); [reflexivity|].
  destruct (configclient_NewForConfig env); [reflexivity|].
  destruct (apiextclient_NewForConfig env); [reflexivity|].
  destruct (goc_NewClusterScopedOperatorClientWithConfigName env); [reflexivity|].
  destruct (assets_ReadFile env "csi_controller_deployment.yaml") as [m1 [e|]];
    [reflexivity|].
  destruct (assets_ReadFile env "webhook_deployment.yaml") as [m2 [e|]];
    [reflexivity|].
  destruct (awaitDone done ticks' 0), (awaitDone (ctx_Done env) ticks 0);
    reflexivity.
Qed.

(** X5: [RunOperator] is still blocked at the end of the watch exactly when
    start-up went through and the [Done] channel stayed open at every tick
    watched; in every other case it has returned. *)
Theorem RunOperator_blocked_iff (env : Environment) (ticks : nat) :
  (RunOperator env ticks).1 = Blocked <->
  startupSucceeds env /\
  forall k : nat, (k < ticks)%nat -> ctx_Done env k = false.
Proof.
  split.
  - intros Hblocked.
    assert (Hstart : startupSucceeds env).
    { revert Hblocked. unfold startupSucceeds. startup_steps env;
        simpl; try discriminate. intros _. repeat split. }
    split; [exact Hstart|].
    rewrite (RunOperator_after_startup env ticks Hstart) in Hblocked.
    destruct (awaitDone (ctx_Done env) ticks 0) eqn:Hwait; [discriminate|].
    intros k Hk. by apply (proj1 (awaitDone_None _ _ _) Hwait k Hk).
  - intros [Hstart Hopen]. rewrite (RunOperator_after_startup env ticks Hstart).
    assert (Hnone : awaitDone (ctx_Done env) ticks 0 = None)
      by (apply awaitDone_None; intros k Hk; by apply Hopen).
    by rewrite Hnone.
Qed.

Lemma RunOperator_blocked_iff_witness :
  startupSucceeds (Examples.healthy 4) /\
  forall k : nat, (k < 2)%nat -> ctx_Done (Examples.healthy 4) k = false.
Proof.
  apply (RunOperator_blocked_iff (Examples.healthy 4) 2). reflexivity.
Defined.

(** X6: after a successful start-up the three informer factories have
    been started, in the order dynamic, config, kube; eight controllers
    have been launched, each with one worker; and every informer start
    comes before every controller launch.  This is so whatever the [Done]
    channel does. *)
Theorem RunOperator_starts_informers_then_controllers (env : Environment)
    (ticks : nat) :
  startupSucceeds env ->
  informersStarted (RunOperator env ticks).2
    = ["dynamicInformers"; "configInformers"; "kubeInformersForNamespaces"] /\
  (controllersLaunched (RunOperator env ticks).2).*2 = replicate 8 1%nat /\
  exists before after : list Effect,
    (RunOperator env ticks).2 = before ++ after /\
    controllersLaunched before = [] /\ informersStarted after = [].
Proof.
  intros (Hk & Hc & Ha & Ho & Hm1 & Hm2). unfold RunOperator.
  rewrite Hk, Hc, Ha, Ho.
  destruct (assets_ReadFile env "csi_controller_deployment.yaml") as [m1 e1].
  destruct (assets_ReadFile env "webhook_deployment.yaml") as [m2 e2].
  simpl in Hm1, Hm2. subst e1 e2.
  destruct (awaitDone (ctx_Done env) ticks 0); simpl;
    (split; [reflexivity|]); (split; [reflexivity|]);
    (eexists [_; _; _; _; _; _], _; split; [reflexivity|split; reflexivity]).
Qed.

Lemma RunOperator_starts_informers_then_controllers_witness :
  informersStarted (RunOperator Examples.cancelledAtEntry 1).2
    = ["dynamicInformers"; "configInformers"; "kubeInformersForNamespaces"] /\
  (controllersLaunched (RunOperator Examples.cancelledAtEntry 1).2).*2
    = replicate 8 1%nat.
Proof.
  destruct (RunOperator_starts_informers_then_controllers
              Examples.cancelledAtEntry 1) as (Hinf & Hctl & _).
  - repeat split.
  - split; [exact Hinf | exact Hctl].
Defined.



(** X8: a return is final: once [RunOperator] is seen to have returned an
    error, a longer watch sees the same return and the same effects. *)
Theorem RunOperator_return_is_final (env : Environment) (ticks ticks' : nat)
    (e : option error) :
  (RunOperator env ticks).1 = Returned e -> (ticks <= ticks')%nat ->
  RunOperator env ticks' = RunOperator env ticks.
Proof.
  intros Hret Hle. revert Hret. startup_steps env; try reflexivity.
  destruct (awaitDone (ctx_Done env) ticks 0) as [n|] eqn:Hwait; [|discriminate].
  intros _. by rewrite (awaitDone_mono _ _ _ _ _ Hwait Hle).
Qed.

Lemma RunOperator_return_is_final_witness :
  RunOperator (Examples.healthy 3) 9 = RunOperator (Examples.healthy 3) 4.
Proof.
  apply (RunOperator_return_is_final (Examples.healthy 3) 4 9 (Some "stopped")).
  - reflexivity.
  - lia.
Defined.

(** X9: [RunOperator] has done nothing to the process exactly when a
    start-up step failed, and a start-up step fails exactly when start-up
    does not go through: there is no partial start. *)
Theorem RunOperator_nothing_done_iff_startup_fails (env : Environment)
    (ticks : nat) :
  ((RunOperator env ticks).2 = [] <-> startupFails env) /\
  (startupFails env <-> ~ startupSucceeds env).
Proof.
  split; [|apply startupFails_not_succeeds].
  split.
  - intros Hnil. apply startupFails_not_succeeds. intros Hstart.
    by apply (effects_not_nil_after_startup env ticks Hstart).
  - apply effects_on_failure.
Qed.

End RunOperatorMore.

(** * Further properties of the manifest hook *)

Section HookMore.

Lemma hasPlaceholder_app (p : Placeholder) (a k : list byte) :
  hasPlaceholder p (a ++ k) = false -> hasPlaceholder p k = false.
Proof.
  induction a as [|c a IH]; [done|]. simpl.
  intros [_ Hrest]%orb_false_elim. by apply IH.
Qed.

(** Without an occurrence of [${LOG_LEVEL}] the spec plays no part. *)
Lemma substitute_without_LOG_LEVEL (v : string) (s1 s2 : OperatorSpec) (n : nat) :
  forall m : list byte,
    (length m <= n)%nat -> hasPlaceholder LOG_LEVEL m = false ->
    substitute m s1 v = substitute m s2 v.
Proof.
  induction n as [|n IH]; intros [|c m] Hlen Hno; simpl in Hlen; try lia;
    try (by rewrite !substitute_nil).
  cbn [hasPlaceholder] in Hno. apply orb_false_elim in Hno as [Hhere Hrest].
  destruct (strings.HasPrefix (c :: m) (bytes (token OPERAND_IMAGE))) eqn:Himg.
  - apply HasPrefix_prefix in Himg as [k Hk].
    assert (Hm : m = bytes "{OPERAND_IMAGE}" ++ k).
    { change (bytes (token OPERAND_IMAGE) ++ k)
        with ("$"%byte :: (bytes "{OPERAND_IMAGE}" ++ k)) in Hk.
      by injection Hk. }
    assert (Hlenk : (length k <= n)%nat).
    { pose proof (f_equal length Hm) as Hl. rewrite length_app in Hl. lia. }
    assert (Hnok : hasPlaceholder LOG_LEVEL k = false).
    { rewrite Hm in Hrest. by apply (hasPlaceholder_app _ (bytes "{OPERAND_IMAGE}")). }
    rewrite Hk, !substitute_token. simpl. f_equal. by apply IH.
  - assert (Hat : tokenAt (c :: m) = false) by (unfold tokenAt; by rewrite Himg, Hhere).
    rewrite !substitute_copy by done. f_equal. apply IH; [lia|done].
Qed.

(** Without an occurrence of [${OPERAND_IMAGE}] the image name plays no
    part. *)
Lemma substitute_without_OPERAND_IMAGE (v1 v2 : string) (s : OperatorSpec) (n : nat) :
  forall m : list byte,
    (length m <= n)%nat -> hasPlaceholder OPERAND_IMAGE m = false ->
    substitute m s v1 = substitute m s v2.
Proof.
  induction n as [|n IH]; intros [|c m] Hlen Hno; simpl in Hlen; try lia;
    try (by rewrite !substitute_nil).
  cbn [hasPlaceholder] in Hno. apply orb_false_elim in Hno as [Hhere Hrest].
  destruct (strings.HasPrefix (c :: m) (bytes (token LOG_LEVEL))) eqn:Hlvl.
  - apply HasPrefix_prefix in Hlvl as [k Hk].
    assert (Hm : m = bytes "{LOG_LEVEL}" ++ k).
    { change (bytes (token LOG_LEVEL) ++ k)
        with ("$"%byte :: (bytes "{LOG_LEVEL}" ++ k)) in Hk.
      by injection Hk. }
    assert (Hlenk : (length k <= n)%nat).
    { pose proof (f_equal length Hm) as Hl. rewrite length_app in Hl. lia. }
    assert (Hnok : hasPlaceholder OPERAND_IMAGE k = false).
    { rewrite Hm in Hrest. by apply (hasPlaceholder_app _ (bytes "{LOG_LEVEL}")). }
    rewrite Hk, !substitute_token. simpl. f_equal. by apply IH.
  - assert (Hat : tokenAt (c :: m) = false) by (unfold tokenAt; by rewrite Hlvl, Hhere).
    rewrite !substitute_copy by done. f_equal. apply IH; [lia|done].
Qed.

(** X10: a manifest in which neither known token occurs comes back from
    the hook byte for byte, whatever the image name and the spec. *)
Theorem hook_identity_without_tokens (v : string) (s : OperatorSpec)
    (m : list byte) :
  hasToken m = false -> replacePlaceholdersHook v s m = (m, None).
Proof.
  intros Hfree. pose proof (substitute_token_free v s m Hfree) as Hsub.
  unfold substitute in Hsub. rewrite hook_eq in *. cbn [fst] in Hsub. by rewrite Hsub.
Qed.

Lemma hook_identity_without_tokens_witness :
  replacePlaceholdersHook "quay.io/csi:v1" Examples.managed
      (bytes "replicas: ${REPLICAS} $ ${OPERAND_IMAGE")
    = (bytes "replicas: ${REPLICAS} $ ${OPERAND_IMAGE", None).
Proof.
  apply (hook_identity_without_tokens "quay.io/csi:v1" Examples.managed).
  reflexivity.
Defined.

(** X11: the hook copies the manifest up to its first [$]: bytes free of
    [$] at the front of the manifest are at the front of the output, and
    what follows them is substituted as if it stood alone. *)
Theorem hook_copies_up_to_first_dollar (v : string) (s : OperatorSpec)
    (x m : list byte) :
  "$"%byte ∉ x -> substitute (x ++ m) s v = x ++ substitute m s v.
Proof.
  intros Hno. revert Hno. induction x as [|c x IH]; intros Hno; [reflexivity|].
  apply not_elem_of_cons in Hno as [Hc Hx]. simpl.
  rewrite substitute_copy; [by rewrite IH|].
  apply not_true_iff_false. intros Hat. apply tokenAt_head in Hat. congruence.
Qed.

Lemma hook_copies_up_to_first_dollar_witness :
  substitute (bytes "image: " ++ bytes "${OPERAND_IMAGE}") Examples.managed "img"
    = bytes "image: " ++ substitute (bytes "${OPERAND_IMAGE}") Examples.managed "img".
Proof.
  apply (hook_copies_up_to_first_dollar "img" Examples.managed (bytes "image: ")).
  compute_done.
Defined.

(** X12: the hook can be run piecewise: cut a manifest in front of any
    [$] (or at its end) and the output is the output for the first piece
    followed by the output for the second. *)
Theorem hook_splits_at_dollar (v : string) (s : OperatorSpec) (a m : list byte) :
  head m = Some "$"%byte \/ m = [] ->
  substitute (a ++ m) s v = substitute a s v ++ substitute m s v.
Proof.
  intros Hm. apply (substitute_app v s (length a)); [lia | exact Hm].
Qed.

Lemma hook_splits_at_dollar_witness :
  substitute (bytes "a ${LOG_LEVEL" ++ bytes "${OPERAND_IMAGE} b") Examples.managed "img"
    = substitute (bytes "a ${LOG_LEVEL") Examples.managed "img"
      ++ substitute (bytes "${OPERAND_IMAGE} b") Examples.managed "img".
Proof.
  apply (hook_splits_at_dollar "img" Examples.managed).
  left. reflexivity.
Defined.

(** X13: the hook makes one pass and does not read what it has written: at
    a token it writes the token's value, whatever that value holds, and
    goes on with the manifest after the token.  An image name that is
    itself a token, or an empty one, is written as it is. *)
Theorem hook_single_pass (v : string) (s : OperatorSpec) (m : list byte) :
  substitute (bytes "${OPERAND_IMAGE}" ++ m) s v = bytes v ++ substitute m s v /\
  substitute (bytes "${LOG_LEVEL}" ++ m) s v
    = bytes (fmt_Sprint (loglevel.LogLevelToVerbosity (LogLevel s)))
      ++ substitute m s v /\
  substitute (bytes "${OPERAND_IMAGE}") s "${LOG_LEVEL}" = bytes "${LOG_LEVEL}" /\
  substitute (bytes "${OPERAND_IMAGE}" ++ m) s "" = substitute m s "".
Proof.
  split; [apply (substitute_token v s OPERAND_IMAGE)|].
  split; [apply (substitute_token v s LOG_LEVEL)|].
  split.
  - pose proof (substitute_token "${LOG_LEVEL}" s OPERAND_IMAGE []) as H.
    rewrite app_nil_r, substitute_nil, app_nil_r in H. exact H.
  - apply (substitute_token "" s OPERAND_IMAGE).
Qed.

(** X14: with an image name that is not empty, has no [$] and starts with
    a byte neither token has, the output of the hook holds no occurrence of
    a known token: no placeholder is left over. *)
Theorem hook_output_has_no_token (v : string) (s : OperatorSpec) (m : list byte) :
  plainImageName v ->
  hasToken (substitute m s v) = false /\
  ~ exists (a : list byte) (p : Placeholder) (b : list byte),
      substitute m s v = a ++ bytes (token p) ++ b.
Proof.
  intros Hplain.
  assert (Hfree : hasToken (substitute m s v) = false)
    by (apply (substitute_has_no_token v s Hplain (length m)); lia).
  split; [exact Hfree|].
  intros Hocc. apply hasToken_true in Hocc. congruence.
Qed.

Lemma hook_output_has_no_token_witness :
  hasToken (substitute Examples.nested Examples.managed "quay.io/csi:v1") = false.
Proof.
  apply (hook_output_has_no_token "quay.io/csi:v1" Examples.managed Examples.nested).
  split; compute_done.
Defined.

(** X15: once the hook has run with such an image name, a later placeholder
    hook changes nothing, whatever its own image name and spec: the second
    deployment hook of another image would find nothing to replace. *)
Theorem hook_absorbs_later_hooks (v1 v2 : string) (s1 s2 : OperatorSpec)
    (m : list byte) :
  plainImageName v1 ->
  replacePlaceholdersHook v2 s2 (substitute m s1 v1) = (substitute m s1 v1, None).
Proof.
  intros Hplain.
  assert (Hfree : hasToken (substitute m s1 v1) = false)
    by (apply (substitute_has_no_token v1 s1 Hplain (length m)); lia).
  pose proof (substitute_token_free v2 s2 _ Hfree) as Hsub.
  unfold substitute in Hsub at 1. rewrite hook_eq in Hsub. cbn [fst] in Hsub.
  by rewrite hook_eq, Hsub.
Qed.

Lemma hook_absorbs_later_hooks_witness :
  replacePlaceholdersHook "" Examples.unmanagedTracing
      (substitute Examples.deployment Examples.managed "quay.io/csi:v1")
    = (substitute Examples.deployment Examples.managed "quay.io/csi:v1", None).
Proof.
  apply (hook_absorbs_later_hooks "quay.io/csi:v1" "" Examples.managed
           Examples.unmanagedTracing Examples.deployment).
  split; compute_done.
Defined.

(** X16: a value matters only where its token occurs: on a manifest
    without [${LOG_LEVEL}] the hook returns the same for every spec, and on
    a manifest without [${OPERAND_IMAGE}] the same for every image
    name. *)
Theorem hook_ignores_absent_placeholder (m : list byte) :
  (hasPlaceholder LOG_LEVEL m = false ->
   forall (v : string) (s1 s2 : OperatorSpec),
     replacePlaceholdersHook v s1 m = replacePlaceholdersHook v s2 m) /\
  (hasPlaceholder OPERAND_IMAGE m = false ->
   forall (v1 v2 : string) (s : OperatorSpec),
     replacePlaceholdersHook v1 s m = replacePlaceholdersHook v2 s m).
Proof.
  split.
  - intros Hno v s1 s2.
    pose proof (substitute_without_LOG_LEVEL v s1 s2 (length m) m
                  (Nat.le_refl _) Hno) as Hsub.
    unfold substitute in Hsub. rewrite !hook_eq in *. cbn [fst] in Hsub.
    by rewrite Hsub.
  - intros Hno v1 v2 s.
    pose proof (substitute_without_OPERAND_IMAGE v1 v2 s (length m) m
                  (Nat.le_refl _) Hno) as Hsub.
    unfold substitute in Hsub. rewrite !hook_eq in *. cbn [fst] in Hsub.
    by rewrite Hsub.
Qed.

Lemma hook_ignores_absent_placeholder_witness :
  replacePlaceholdersHook "img" Examples.managed Examples.imageOnly
    = replacePlaceholdersHook "img" (mkOperatorSpec "" operatorv1.TraceAll "" [] [])
        Examples.imageOnly /\
  replacePlaceholdersHook "img" Examples.managed Examples.levelOnly
    = replacePlaceholdersHook "" Examples.managed Examples.levelOnly.
Proof.
  destruct (hook_ignores_absent_placeholder Examples.imageOnly) as [Hspec _].
  destruct (hook_ignores_absent_placeholder Examples.levelOnly) as [_ Himage].
  split.
  - apply Hspec. reflexivity.
  - apply Himage. reflexivity.
Defined.

End HookMore.
